(** * Open/R configuration validation: [openr/config/Config.cpp]

    A shallow embedding of [Config::createPrefixAllocationParams],
    [Config::addAreaRegex], [Config::populateAreaConfig] and
    [Config::populateInternalDb], and the properties of the configuration
    specification checked against them.

    Conventions.
    - A C++ function that may throw returns an [Outcome]: [Returns v] or
      [Throws e], where [e] records the exception class and its [what()] text.
      Statements are sequenced with stdpp's monadic notation.
    - Thrift [i32] fields are [Z]; [uint8_t] is a [Z] in [0, 255], and the
      implicit narrowing at a call site is written out ([to_uint8]).
    - [std::set<std::string>] is a [gset string], the area map a
      [gmap string AreaConfiguration].
    - The two external libraries the code calls are modelled at their
      interface: RE2 (pattern syntax and set compilation) and the textual
      address syntax of folly are parameters of the development; the part of
      [folly::IPAddress::createNetwork] that splits, range-checks and masks
      is written out from the library's declaration. *)

From Stdlib Require Import Ascii.
From stdpp Require Import gmap strings pretty list.

Local Open Scope Z_scope.
#[local] Set Warnings "-clear-no-such-hyp".
#[local] Set Default Proof Using "Type".

(* ===================================================================== *)
(** ** Exceptions and the outcome of a call *)
(* ===================================================================== *)

(** Result codes of [folly::IPAddress::tryCreateNetwork]. *)
Inductive CIDRNetworkError : Type :=
  | INVALID_DEFAULT_CIDR
  | INVALID_IP_SLASH_CIDR
  | INVALID_IP
  | INVALID_CIDR
  | CIDR_MISMATCH.

(** The exception classes thrown inside Config.cpp, with their message. *)
Inductive Exception : Type :=
  | invalid_argument (what : string)
  | out_of_range (what : string)
  | IPAddressFormatException (code : CIDRNetworkError).

Inductive Outcome (A : Type) : Type :=
  | Returns (a : A)
  | Throws (e : Exception).
Arguments Returns {A} a.
Arguments Throws {A} e.

#[export] Instance Outcome_ret : MRet Outcome := fun _ a => Returns a.
#[export] Instance Outcome_bind : MBind Outcome := fun _ _ f m =>
  match m with
  | Returns a => f a
  | Throws e => Throws e
  end.

(** [if (c) throw e;] *)
Definition throw_if (c : bool) (e : Exception) : Outcome unit :=
  if c then Throws e else Returns tt.

Definition returned {A} (o : Outcome A) : bool :=
  match o with Returns _ => true | Throws _ => false end.

Definition thrown {A} (o : Outcome A) : bool :=
  match o with Returns _ => false | Throws _ => true end.

(* ===================================================================== *)
(** ** folly: CIDR networks *)
(* ===================================================================== *)

(** [folly::IPAddress]: the address family and the address as one big-endian
    number of 32 or 128 bits. *)
Inductive IPAddress : Type :=
  | IPAddressV4 (addr : Z)
  | IPAddressV6 (addr : Z).

#[export] Instance IPAddress_eq_dec : EqDecision IPAddress.
Proof. solve_decision. Defined.

Definition isV4 (a : IPAddress) : bool :=
  match a with IPAddressV4 _ => true | IPAddressV6 _ => false end.

Definition isV6 (a : IPAddress) : bool :=
  match a with IPAddressV4 _ => false | IPAddressV6 _ => true end.

Definition bitCount (a : IPAddress) : Z :=
  match a with IPAddressV4 _ => 32 | IPAddressV6 _ => 128 end.

(** The netmask with [numBits] leading ones in a [width]-bit word. *)
Definition fetchMask (width numBits : Z) : Z :=
  Z.shiftl (Z.ones numBits) (width - numBits).

(** [IPAddress::mask(numBits)]: keep the first [numBits] bits, clear the rest. *)
Definition mask (a : IPAddress) (numBits : Z) : IPAddress :=
  match a with
  | IPAddressV4 w => IPAddressV4 (Z.land w (fetchMask 32 numBits))
  | IPAddressV6 w => IPAddressV6 (Z.land w (fetchMask 128 numBits))
  end.

(** [folly::CIDRNetwork = std::pair<IPAddress, uint8_t>] *)
Definition CIDRNetwork : Type := IPAddress * Z.

(** [folly::split(delim, s, out)], empty pieces kept. *)
Fixpoint split (delim : ascii) (s : string) : list string :=
  match s with
  | EmptyString => [EmptyString]
  | String c rest =>
      if Ascii.eqb c delim then EmptyString :: split delim rest
      else match split delim rest with
           | [] => [String c EmptyString]
           | piece :: pieces => String c piece :: pieces
           end
  end.

Definition digit_value (c : ascii) : option Z :=
  let n := Z.of_N (N_of_ascii c) in
  if (48 <=? n) && (n <=? 57) then Some (n - 48) else None.

Fixpoint decimal_value (acc : Z) (s : string) : option Z :=
  match s with
  | EmptyString => Some acc
  | String c rest =>
      match digit_value c with
      | Some d => decimal_value (10 * acc + d) rest
      | None => None
      end
  end.

(** [folly::tryTo<uint8_t>(piece)] on a piece of decimal digits: the number,
    when it fits eight bits. *)
Definition tryTo_uint8 (s : string) : option Z :=
  match s with
  | EmptyString => None
  | _ => match decimal_value 0 s with
         | Some v => if v <=? 255 then Some v else None
         | None => None
         end
  end.

(** glibc [inet_pton(AF_INET, ..)], which [IPAddressV4] parses with: four
    decimal fields of value at most 255, no leading zero, joined by dots. *)
Definition inet_pton4_field (s : string) : option Z :=
  match s with
  | EmptyString => None
  | String "0" (String _ _) => None
  | _ => match decimal_value 0 s with
         | Some v => if v <=? 255 then Some v else None
         | None => None
         end
  end.

Definition inet_pton4 (s : string) : option Z :=
  match split "." s with
  | [a; b; c; d] =>
      match inet_pton4_field a, inet_pton4_field b,
            inet_pton4_field c, inet_pton4_field d with
      | Some a, Some b, Some c, Some d =>
          Some (Z.lor (Z.shiftl a 24)
                  (Z.lor (Z.shiftl b 16) (Z.lor (Z.shiftl c 8) d)))
      | _, _, _, _ => None
      end
  | _ => None
  end.

Fixpoint contains (c : ascii) (s : string) : bool :=
  match s with
  | EmptyString => false
  | String c' rest => Ascii.eqb c' c || contains c rest
  end.

Definition hex_value (c : ascii) : option Z :=
  let n := Z.of_N (N_of_ascii c) in
  if (48 <=? n) && (n <=? 57) then Some (n - 48)
  else if (97 <=? n) && (n <=? 102) then Some (n - 87)
  else if (65 <=? n) && (n <=? 70) then Some (n - 55)
  else None.

Fixpoint hex_number (acc : Z) (s : string) : option Z :=
  match s with
  | EmptyString => Some acc
  | String c rest =>
      match hex_value c with
      | Some d => hex_number (16 * acc + d) rest
      | None => None
      end
  end.

(** One group of an IPv6 address: one to four hexadecimal digits. *)
Definition inet_pton6_field (s : string) : option Z :=
  match s with
  | EmptyString => None
  | _ => if (String.length s <=? 4)%nat then hex_number 0 s else None
  end.

Definition inet_pton6_fields (s : string) : option (list Z) :=
  match s with
  | EmptyString => Some []
  | _ => mapM inet_pton6_field (split ":" s)
  end.

(** The text before and after the first double colon. *)
Fixpoint split_double_colon (s : string) : option (string * string) :=
  match s with
  | EmptyString => None
  | String c rest =>
      match rest with
      | String c' rest' =>
          if Ascii.eqb c ":" && Ascii.eqb c' ":" then Some (EmptyString, rest')
          else prod_map (String c) id <$> split_double_colon rest
      | EmptyString => None
      end
  end.

Definition pack_groups (groups : list Z) : Z :=
  foldl (fun acc g => Z.lor (Z.shiftl acc 16) g) 0 groups.

(** glibc [inet_pton(AF_INET6, ..)] on colon-separated hexadecimal groups:
    eight groups, or fewer around one double colon, which stands for the
    missing zero groups. *)
Definition inet_pton6 (s : string) : option Z :=
  match split_double_colon s with
  | None =>
      gs ← inet_pton6_fields s;
      if (length gs =? 8)%nat then Some (pack_groups gs) else None
  | Some (l, r) =>
      gl ← inet_pton6_fields l;
      gr ← inet_pton6_fields r;
      if (length gl + length gr <=? 7)%nat
      then Some (pack_groups
                   (gl ++ replicate (8 - (length gl + length gr)) 0 ++ gr))
      else None
  end.

(** A concrete address syntax on which the model is run on examples.  As
    [folly::IPAddress::tryFromString] does, text holding a colon goes to the
    IPv6 parser, other text holding a dot to the IPv4 parser, and anything
    else is no address.  Bracketed, scoped and IPv4-suffixed IPv6 text is not
    covered: no property below depends on the syntax chosen here. *)
Definition inet_syntax (s : string) : option IPAddress :=
  if contains ":" s then IPAddressV6 <$> inet_pton6 s
  else if contains "." s then IPAddressV4 <$> inet_pton4 s
  else None.

(** [IPAddressV4::bytes()], [IPAddressV6::bytes()]: the [n] bytes of the
    address in network order, the first byte the most significant. *)
Fixpoint be_bytes (n : nat) (w : Z) : list Z :=
  match n with
  | O => []
  | S k => be_bytes k (w `div` 256) ++ [w `mod` 256]
  end.

(** The number a sequence of bytes in network order stands for. *)
Definition be_value (bs : list Z) : Z :=
  foldl (fun acc b => acc * 256 + b) 0 bs.

(** An address whose number fits the width of its family. *)
Definition IPAddress_wf (a : IPAddress) : Prop :=
  match a with
  | IPAddressV4 w => 0 ≤ w < 2 ^ 32
  | IPAddressV6 w => 0 ≤ w < 2 ^ 128
  end.

Definition hex_digit (d : Z) : ascii :=
  ascii_of_N (Z.to_N (if d <? 10 then 48 + d else 87 + d)).

Fixpoint strip_zeros (digits : list Z) : list Z :=
  match digits with
  | 0 :: rest => strip_zeros rest
  | _ => digits
  end.

(** A 16-bit group in hexadecimal, without leading zeros. *)
Definition hex_group (g : Z) : string :=
  let digits := [(g `div` 4096) `mod` 16; (g `div` 256) `mod` 16;
                 (g `div` 16) `mod` 16] in
  foldr String EmptyString
    (hex_digit <$> (strip_zeros digits ++ [g `mod` 16])).

(** A concrete address printer on which the model is run on examples: the
    dotted quad of a v4 address and the eight groups of a v6 address.  It
    stands in for [folly::IPAddress::str()], which also shortens a run of
    zero groups of a v6 address. *)
Definition inet_str (a : IPAddress) : string :=
  match a with
  | IPAddressV4 w =>
      match be_bytes 4 w with
      | [a; b; c; d] =>
          pretty a +:+ "." +:+ pretty b +:+ "." +:+ pretty c +:+ "."
          +:+ pretty d
      | _ => EmptyString
      end
  | IPAddressV6 w =>
      match hex_group <$> ((fun i => (w ≫ (16 * (7 - i))) `mod` 65536)
                             <$> [0; 1; 2; 3; 4; 5; 6; 7]) with
      | g :: gs => foldl (fun acc x => acc +:+ ":" +:+ x) g gs
      | [] => EmptyString
      end
  end.

Section ConfigCpp.

(** The textual address syntax, [folly::IPAddress::tryFromString]. *)
Variable IPAddress_tryFromString : string → option IPAddress.

(** [folly::IPAddress::createNetwork(ipSlashCidr, defaultCidr = -1,
    mask = true)], which throws where [tryCreateNetwork] reports an error.
    The text is split at the slashes; the first piece is the address, the
    second, when there is one, the prefix length; the length may not exceed
    the bit count of the family; and with [applyMask] the address is masked
    to that length before the pair is returned. *)
Definition createNetwork (ipSlashCidr : string) (defaultCidr : Z)
    (applyMask : bool) : Outcome CIDRNetwork :=
  throw_if (255 <? defaultCidr) (IPAddressFormatException INVALID_DEFAULT_CIDR);;
  let vec := split "/" ipSlashCidr in
  throw_if ((length vec =? 0)%nat || (2 <? length vec)%nat)
    (IPAddressFormatException INVALID_IP_SLASH_CIDR);;
  match IPAddress_tryFromString (default EmptyString (vec !! 0%nat)) with
  | None => Throws (IPAddressFormatException INVALID_IP)
  | Some subnet =>
      cidr ← match vec !! 1%nat with
             | Some piece =>
                 match tryTo_uint8 piece with
                 | Some n => Returns n
                 | None => Throws (IPAddressFormatException INVALID_CIDR)
                 end
             | None =>
                 Returns (if -1 <? defaultCidr then defaultCidr
                          else if isV4 subnet then 32 else 128)
             end;
      throw_if (bitCount subnet <? cidr)
        (IPAddressFormatException CIDR_MISMATCH);;
      mret (if applyMask then mask subnet cidr else subnet, cidr)
  end.

(* ===================================================================== *)
(** ** Config::createPrefixAllocationParams *)
(* ===================================================================== *)

(** [PrefixAllocationParams = std::pair<folly::CIDRNetwork, uint8_t>] *)
Definition PrefixAllocationParams : Type := CIDRNetwork * Z.

Definition createPrefixAllocationParams (seedPfxStr : string)
    (allocationPfxLen : Z) : Outcome PrefixAllocationParams :=
  (* check seed_prefix and allocate_prefix_len are set *)
  throw_if (bool_decide (seedPfxStr = EmptyString) || (allocationPfxLen =? 0))
    (invalid_argument "seed_prefix and allocate_prefix_len must be filled.");;
  (* validate seed prefix *)
  seedPfx ← createNetwork seedPfxStr (-1) true;
  (* validate allocate_prefix_len *)
  throw_if (isV4 seedPfx.1 &&
            ((allocationPfxLen <=? seedPfx.2) || (32 <? allocationPfxLen)))
    (out_of_range ("invalid allocate_prefix_len (" +:+ pretty allocationPfxLen
                   +:+ "), valid range = (" +:+ pretty seedPfx.2 +:+ ", 32]"));;
  throw_if (isV6 seedPfx.1 &&
            ((allocationPfxLen <=? seedPfx.2) || (128 <? allocationPfxLen)))
    (out_of_range ("invalid allocate_prefix_len (" +:+ pretty allocationPfxLen
                   +:+ "), valid range = (" +:+ pretty seedPfx.2 +:+ ", 128]"));;
  mret (seedPfx, allocationPfxLen).

(* ===================================================================== *)
(** ** The configuration document (thrift::OpenrConfig) *)
(* ===================================================================== *)

(** Only the fields Config.cpp reads are kept.  An [optional] thrift field is
    an [option]; an enum field may hold a number that names no enumerator
    (the document is deserialized from JSON), kept as [.._unnamed]. *)

Record AreaConfig : Type := {
  area_id : string;
  interface_regexes : list string;
  neighbor_regexes : list string;
}.

Inductive PrefixForwardingType : Type :=
  | IP | SR_MPLS | PrefixForwardingType_unnamed (value : Z).

Inductive PrefixForwardingAlgorithm : Type :=
  | SP_ECMP | KSP2_ED_ECMP | PrefixForwardingAlgorithm_unnamed (value : Z).

Inductive PrefixAllocationMode : Type :=
  | DYNAMIC_LEAF_NODE | DYNAMIC_ROOT_NODE | STATIC
  | PrefixAllocationMode_unnamed (value : Z).

#[export] Instance PrefixForwardingType_eq_dec : EqDecision PrefixForwardingType.
Proof. solve_decision. Defined.
#[export] Instance PrefixForwardingAlgorithm_eq_dec :
  EqDecision PrefixForwardingAlgorithm.
Proof. solve_decision. Defined.

Record KvstoreFloodRate : Type := {
  flood_msg_per_sec : Z;
  flood_msg_burst_size : Z;
}.

Record KvstoreConfig : Type := {
  flood_rate : option KvstoreFloodRate;
}.

Record StepDetectorConfig : Type := {
  fast_window_size : Z;
  slow_window_size : Z;
  lower_threshold : Z;
  upper_threshold : Z;
}.

Record SparkConfig : Type := {
  neighbor_discovery_port : Z;
  hello_time_s : Z;
  fastinit_hello_time_ms : Z;
  keepalive_time_s : Z;
  hold_time_s : Z;
  graceful_restart_time_s : Z;
  step_detector_conf : StepDetectorConfig;
}.

Record MonitorConfig : Type := {
  max_event_log : Z;
}.

Record LinkMonitorConfig : Type := {
  linkflap_initial_backoff_ms : Z;
  linkflap_max_backoff_ms : Z;
  include_interface_regexes : list string;
  exclude_interface_regexes : list string;
  redistribute_interface_regexes : list string;
}.

Record PrefixAllocationConfig : Type := {
  prefix_allocation_mode : PrefixAllocationMode;
  seed_prefix : option string;
  allocate_prefix_len : option Z;
}.

(** A sub-document none of whose fields Config.cpp reads: the fields that
    are set, by name.  A default-constructed one has none. *)
Definition SubDocument : Type := list (string * string).

Definition BgpConfig : Type := SubDocument.
Definition WatchdogConfig : Type := SubDocument.
Definition BgpRouteTranslationConfig : Type := SubDocument.

(** [thrift::BgpRouteTranslationConfig()] *)
Definition BgpRouteTranslationConfig_default : BgpRouteTranslationConfig := [].

Record OpenrConfig : Type := {
  areas : list AreaConfig;
  prefix_forwarding_type : PrefixForwardingType;
  prefix_forwarding_algorithm : PrefixForwardingAlgorithm;
  enable_v4 : option bool;
  enable_ordered_fib_programming : option bool;
  enable_prefix_allocation : option bool;
  enable_bgp_peering : option bool;
  enable_watchdog : option bool;
  kvstore_config : KvstoreConfig;
  spark_config : SparkConfig;
  monitor_config : MonitorConfig;
  link_monitor_config : LinkMonitorConfig;
  prefix_allocation_config : option PrefixAllocationConfig;
  bgp_config : option BgpConfig;
  bgp_translation_config : option BgpRouteTranslationConfig;
  watchdog_config : option WatchdogConfig;
}.

(** [apache::thrift::util::enumName]: the enumerator's name, or null. *)
Definition enumName_PrefixForwardingType (v : PrefixForwardingType)
    : option string :=
  match v with
  | IP => Some "IP"
  | SR_MPLS => Some "SR_MPLS"
  | PrefixForwardingType_unnamed _ => None
  end.

Definition enumName_PrefixForwardingAlgorithm (v : PrefixForwardingAlgorithm)
    : option string :=
  match v with
  | SP_ECMP => Some "SP_ECMP"
  | KSP2_ED_ECMP => Some "KSP2_ED_ECMP"
  | PrefixForwardingAlgorithm_unnamed _ => None
  end.

Definition enumName_PrefixAllocationMode (v : PrefixAllocationMode)
    : option string :=
  match v with
  | DYNAMIC_LEAF_NODE => Some "DYNAMIC_LEAF_NODE"
  | DYNAMIC_ROOT_NODE => Some "DYNAMIC_ROOT_NODE"
  | STATIC => Some "STATIC"
  | PrefixAllocationMode_unnamed _ => None
  end.

(** [not p] on the pointer [enumName] returns. *)
Definition is_null {A} (p : option A) : bool :=
  match p with Some _ => false | None => true end.

(** The implicit conversion of an [i32] argument to a [uint8_t] parameter. *)
Definition to_uint8 (v : Z) : Z := v `mod` 256.

(** A value brought back into [int32_t]: the result of 32-bit arithmetic,
    which keeps the low 32 bits in two's complement. *)
Definition int32_wrap (v : Z) : Z := (v + 2 ^ 31) `mod` 2 ^ 32 - 2 ^ 31.

(** The product of two [int32_t] values, as the program computes it. *)
Definition int32_mul (a b : Z) : Z := int32_wrap (a * b).

(* ===================================================================== *)
(** ** RE2 pattern sets *)
(* ===================================================================== *)

Record RE2_Options : Type := {
  case_sensitive : bool;
}.

Inductive RE2_Anchor : Type := UNANCHORED | ANCHOR_START | ANCHOR_BOTH.

(** [re2::RE2::Set]: its options, its anchoring and the patterns added. *)
Record RE2_Set : Type := {
  set_options : RE2_Options;
  set_anchor : RE2_Anchor;
  set_patterns : list string;
}.

(** [re2::RE2::Options regexOpts;] is case sensitive. *)
Definition RE2_Options_default : RE2_Options := {| case_sensitive := true |}.

Definition set_case_sensitive (b : bool) (o : RE2_Options) : RE2_Options :=
  {| case_sensitive := b |}.

Definition RE2_Set_new (o : RE2_Options) (a : RE2_Anchor) : RE2_Set :=
  {| set_options := o; set_anchor := a; set_patterns := [] |}.

(** The pattern syntax of RE2: the error text [Set::Add] reports for a
    pattern it cannot parse (it then returns -1), [None] for a pattern it
    accepts. *)
Variable RE2_parse_error : RE2_Options → string → option string.

(** Whether [Set::Compile] succeeds on the patterns added. *)
Variable RE2_Set_Compile : RE2_Set → bool.

(** [Set::Add(pattern, &error)]: the set with the pattern appended, or the
    error text. *)
Definition RE2_Set_Add (pattern : string) (set : RE2_Set) : string + RE2_Set :=
  match RE2_parse_error (set_options set) pattern with
  | Some regexErr => inl regexErr
  | None => inr {| set_options := set_options set;
                   set_anchor := set_anchor set;
                   set_patterns := set_patterns set ++ [pattern] |}
  end.

(** [for (const auto& regexStr : regexes) if (-1 == set->Add(regexStr,
    &regexErr)) throw failed(regexStr, regexErr);] *)
Fixpoint add_regexes (failed : string → string → Exception)
    (regexes : list string) (set : RE2_Set) : Outcome RE2_Set :=
  match regexes with
  | [] => Returns set
  | regexStr :: rest =>
      match RE2_Set_Add regexStr set with
      | inl regexErr => Throws (failed regexStr regexErr)
      | inr set' => add_regexes failed rest set'
      end
  end.

(** The block that builds one pattern set: nothing for an empty list
    (the pointer stays null), otherwise a new set, every pattern added, then
    compiled. *)
Definition build_regex_set (o : RE2_Options)
    (add_failed : string → string → Exception) (compile_failed : Exception)
    (regexes : list string) : Outcome (option RE2_Set) :=
  match regexes with
  | [] => Returns None
  | _ =>
      set ← add_regexes add_failed regexes (RE2_Set_new o ANCHOR_BOTH);
      throw_if (negb (RE2_Set_Compile set)) compile_failed;;
      mret (Some set)
  end.

(* ===================================================================== *)
(** ** The Config object *)
(* ===================================================================== *)

(** [AreaConfiguration(areaId, neighborRegexList, interfaceRegexList)]: the
    class is declared in Config.h; what is kept is what the constructor is
    given, a null pointer being [None]. *)
Record AreaConfiguration : Type := {
  areaId : string;
  neighborRegexList : option RE2_Set;
  interfaceRegexList : option RE2_Set;
}.

(** The data members Config.cpp reads and writes. *)
Record Config : Type := {
  config_ : OpenrConfig;
  areaIds_ : gset string;
  areaConfigs_ : gmap string AreaConfiguration;
  includeItfRegexes_ : option RE2_Set;
  excludeItfRegexes_ : option RE2_Set;
  redistributeItfRegexes_ : option RE2_Set;
  prefixAllocationParams_ : option PrefixAllocationParams;
}.

(** The object as [Config::Config] has it after deserializing the document
    and before [populateInternalDb]. *)
Definition Config_init (doc : OpenrConfig) : Config :=
  {| config_ := doc; areaIds_ := ∅; areaConfigs_ := ∅;
     includeItfRegexes_ := None; excludeItfRegexes_ := None;
     redistributeItfRegexes_ := None; prefixAllocationParams_ := None |}.

Definition with_config (doc : OpenrConfig) (self : Config) : Config :=
  {| config_ := doc; areaIds_ := areaIds_ self;
     areaConfigs_ := areaConfigs_ self;
     includeItfRegexes_ := includeItfRegexes_ self;
     excludeItfRegexes_ := excludeItfRegexes_ self;
     redistributeItfRegexes_ := redistributeItfRegexes_ self;
     prefixAllocationParams_ := prefixAllocationParams_ self |}.

Definition with_areaIds (ids : gset string) (self : Config) : Config :=
  {| config_ := config_ self; areaIds_ := ids;
     areaConfigs_ := areaConfigs_ self;
     includeItfRegexes_ := includeItfRegexes_ self;
     excludeItfRegexes_ := excludeItfRegexes_ self;
     redistributeItfRegexes_ := redistributeItfRegexes_ self;
     prefixAllocationParams_ := prefixAllocationParams_ self |}.

Definition with_areaConfigs (m : gmap string AreaConfiguration)
    (self : Config) : Config :=
  {| config_ := config_ self; areaIds_ := areaIds_ self;
     areaConfigs_ := m;
     includeItfRegexes_ := includeItfRegexes_ self;
     excludeItfRegexes_ := excludeItfRegexes_ self;
     redistributeItfRegexes_ := redistributeItfRegexes_ self;
     prefixAllocationParams_ := prefixAllocationParams_ self |}.

Definition with_itfRegexes (inc exc red : option RE2_Set) (self : Config)
    : Config :=
  {| config_ := config_ self; areaIds_ := areaIds_ self;
     areaConfigs_ := areaConfigs_ self;
     includeItfRegexes_ := inc;
     excludeItfRegexes_ := exc;
     redistributeItfRegexes_ := red;
     prefixAllocationParams_ := prefixAllocationParams_ self |}.

Definition with_prefixAllocationParams (p : option PrefixAllocationParams)
    (self : Config) : Config :=
  {| config_ := config_ self; areaIds_ := areaIds_ self;
     areaConfigs_ := areaConfigs_ self;
     includeItfRegexes_ := includeItfRegexes_ self;
     excludeItfRegexes_ := excludeItfRegexes_ self;
     redistributeItfRegexes_ := redistributeItfRegexes_ self;
     prefixAllocationParams_ := p |}.

(** The document with another [bgp_translation_config]. *)
Definition with_bgp_translation_config (t : option BgpRouteTranslationConfig)
    (doc : OpenrConfig) : OpenrConfig :=
  {| areas := areas doc;
     prefix_forwarding_type := prefix_forwarding_type doc;
     prefix_forwarding_algorithm := prefix_forwarding_algorithm doc;
     enable_v4 := enable_v4 doc;
     enable_ordered_fib_programming := enable_ordered_fib_programming doc;
     enable_prefix_allocation := enable_prefix_allocation doc;
     enable_bgp_peering := enable_bgp_peering doc;
     enable_watchdog := enable_watchdog doc;
     kvstore_config := kvstore_config doc;
     spark_config := spark_config doc;
     monitor_config := monitor_config doc;
     link_monitor_config := link_monitor_config doc;
     prefix_allocation_config := prefix_allocation_config doc;
     bgp_config := bgp_config doc;
     bgp_translation_config := t;
     watchdog_config := watchdog_config doc |}.

(** A range-for loop whose body may throw and updates the object. *)
Fixpoint for_each {A S : Type} (body : S → A → Outcome S) (l : list A)
    (s : S) : Outcome S :=
  match l with
  | [] => Returns s
  | x :: rest => s' ← body s x; for_each body rest s'
  end.

(** The feature queries are defined in Config.h, which is not among the
    sources; the spec lists them as the enabled-feature queries of the
    document.  Each reads its flag, an unset flag being off. *)

(** Modelled from the spec: [isV4Enabled], defined in Config.h; the spec's
    enabled-feature query "is v4 enabled". *)
Definition isV4Enabled (self : Config) : bool :=
  default false (enable_v4 (config_ self)).

(** Modelled from the spec: [isOrderedFibProgrammingEnabled], defined in
    Config.h; the spec's enabled-feature query "is ordered-FIB enabled". *)
Definition isOrderedFibProgrammingEnabled (self : Config) : bool :=
  default false (enable_ordered_fib_programming (config_ self)).

(** Modelled from the spec: [isPrefixAllocationEnabled], defined in Config.h;
    the spec's enabled-feature query "is prefix allocation enabled". *)
Definition isPrefixAllocationEnabled (self : Config) : bool :=
  default false (enable_prefix_allocation (config_ self)).

(** Modelled from the spec: [isBgpPeeringEnabled], defined in Config.h; the
    spec's enabled-feature query "is peering enabled". *)
Definition isBgpPeeringEnabled (self : Config) : bool :=
  default false (enable_bgp_peering (config_ self)).

(** Modelled from the spec: [isWatchdogEnabled], defined in Config.h; the
    spec's enabled-feature query "is health-supervision enabled". *)
Definition isWatchdogEnabled (self : Config) : bool :=
  default false (enable_watchdog (config_ self)).

(* ===================================================================== *)
(** ** Config::addAreaRegex *)
(* ===================================================================== *)

Definition addAreaRegex (self : Config) (areaId : string)
    (neighborRegexes interfaceRegexes : list string) : Outcome Config :=
  throw_if (bool_decide (neighborRegexes = []) &&
            bool_decide (interfaceRegexes = []))
    (invalid_argument
       "Invalid config. At least one non-empty regexes for neighbor or interface");;
  let regexOpts := set_case_sensitive false RE2_Options_default in
  (* neighbor regex *)
  neighborRegexList ←
    build_regex_set regexOpts
      (fun regexStr regexErr =>
         invalid_argument ("Failed to add neighbor regex: " +:+ regexStr
                           +:+ " for area: " +:+ areaId
                           +:+ ". Error: " +:+ regexErr))
      (invalid_argument "Neighbor regex compilation failed")
      neighborRegexes;
  (* interface regex *)
  interfaceRegexList ←
    build_regex_set regexOpts
      (fun regexStr regexErr =>
         invalid_argument ("Failed to add interface regex: " +:+ regexStr
                           +:+ " for area: " +:+ areaId
                           +:+ ". Error: " +:+ regexErr))
      (invalid_argument "Interface regex compilation failed")
      interfaceRegexes;
  (* areaConfigs_.emplace: an id already present keeps its entry *)
  let entry := {| areaId := areaId;
                  neighborRegexList := neighborRegexList;
                  interfaceRegexList := interfaceRegexList |} in
  mret (with_areaConfigs
          (match areaConfigs_ self !! areaId with
           | Some _ => areaConfigs_ self
           | None => <[areaId := entry]> (areaConfigs_ self)
           end) self).

(* ===================================================================== *)
(** ** Config::populateAreaConfig *)
(* ===================================================================== *)

(** [thrift::KvStore_constants::kDefaultArea()], a constant of the thrift
    interface definition. *)
Variable kDefaultArea : string.

(** The body of the first loop: [areaIds_.emplace(id).second] is false when
    the id is already in the set. *)
Definition emplace_areaId (self : Config) (area : AreaConfig)
    : Outcome Config :=
  if bool_decide (area_id area ∈ areaIds_ self)
  then Throws (invalid_argument
                 ("Duplicate area config: area_id " +:+ area_id area))
  else Returns (with_areaIds ({[area_id area]} ∪ areaIds_ self) self).

Definition populateAreaConfig (self : Config) : Outcome Config :=
  let defaultArea := {| area_id := kDefaultArea;
                        interface_regexes := [".*"];
                        neighbor_regexes := [".*"] |} in
  let areas_ := if bool_decide (areas (config_ self) = [])
                then [defaultArea]
                else areas (config_ self) in
  self ← for_each emplace_areaId areas_ self;
  for_each
    (fun self areaConfig =>
       addAreaRegex self (area_id areaConfig) (neighbor_regexes areaConfig)
         (interface_regexes areaConfig))
    (areas (config_ self)) self.

(* ===================================================================== *)
(** ** Config::populateInternalDb *)
(* ===================================================================== *)

(** The function is one sequence of checks; it is cut here at its own
    section comments, each part named after the comment.  A part that only
    reads the sub-document the source binds to a local reference
    ([kvConf], [sparkConfig], [monitorConfig], [lmConf]) takes that
    sub-document. *)

(** prefix forwarding type and algorithm *)
Definition check_prefix_forwarding (self : Config) : Outcome unit :=
  let pfxType := prefix_forwarding_type (config_ self) in
  let pfxAlgo := prefix_forwarding_algorithm (config_ self) in
  throw_if (is_null (enumName_PrefixForwardingType pfxType) ||
            is_null (enumName_PrefixForwardingAlgorithm pfxAlgo))
    (invalid_argument
       "invalid prefix_forwarding_type or prefix_forwarding_algorithm");;
  throw_if (bool_decide (pfxAlgo = KSP2_ED_ECMP) &&
            negb (bool_decide (pfxType = SR_MPLS)))
    (invalid_argument
       "prefix_forwarding_type must be set to SR_MPLS for KSP2_ED_ECMP").

(** Fib *)
Definition check_fib (self : Config) : Outcome unit :=
  throw_if (isOrderedFibProgrammingEnabled self &&
            (1 <? size (areaIds_ self))%nat)
    (invalid_argument
       "enable_ordered_fib_programming only support single area config").

(** Kvstore *)
Definition check_kvstore (kvConf : KvstoreConfig) : Outcome unit :=
  match flood_rate kvConf with
  | Some floodRate =>
      throw_if (flood_msg_per_sec floodRate <=? 0)
        (out_of_range "kvstore flood_msg_per_sec should be > 0");;
      throw_if (flood_msg_burst_size floodRate <=? 0)
        (out_of_range "kvstore flood_msg_burst_size should be > 0")
  | None => Returns tt
  end.

(** Spark.  The timing fields are [i32]; the products
    [1000 * hello_time_s] and [3 * keepalive_time_s] are products of [int],
    taken in 32 bits. *)
Definition check_spark (sparkConfig : SparkConfig) : Outcome unit :=
  throw_if ((neighbor_discovery_port sparkConfig <=? 0) ||
            (65535 <? neighbor_discovery_port sparkConfig))
    (out_of_range
       ("neighbor_discovery_port ("
        +:+ pretty (neighbor_discovery_port sparkConfig)
        +:+ ") should be in range [0, 65535]"));;
  throw_if (hello_time_s sparkConfig <=? 0)
    (out_of_range
       ("hello_time_s (" +:+ pretty (hello_time_s sparkConfig)
        +:+ ") should be > 0"));;
  throw_if (fastinit_hello_time_ms sparkConfig <=? 0)
    (out_of_range
       ("fastinit_hello_time_ms ("
        +:+ pretty (fastinit_hello_time_ms sparkConfig)
        +:+ ") should be > 0"));;
  throw_if (int32_mul 1000 (hello_time_s sparkConfig)
            <? fastinit_hello_time_ms sparkConfig)
    (invalid_argument
       ("fastinit_hello_time_ms ("
        +:+ pretty (fastinit_hello_time_ms sparkConfig)
        +:+ ") should be <= hold_time_s ("
        +:+ pretty (hello_time_s sparkConfig) +:+ ") * 1000"));;
  throw_if (keepalive_time_s sparkConfig <=? 0)
    (out_of_range
       ("keepalive_time_s (" +:+ pretty (keepalive_time_s sparkConfig)
        +:+ ") should be > 0"));;
  throw_if (hold_time_s sparkConfig <? keepalive_time_s sparkConfig)
    (invalid_argument
       ("keepalive_time_s (" +:+ pretty (keepalive_time_s sparkConfig)
        +:+ ") should be <= hold_time_s ("
        +:+ pretty (hold_time_s sparkConfig) +:+ ")"));;
  throw_if (hold_time_s sparkConfig <=? 0)
    (out_of_range
       ("hold_time_s (" +:+ pretty (hold_time_s sparkConfig)
        +:+ ") should be > 0"));;
  throw_if (graceful_restart_time_s sparkConfig <=? 0)
    (out_of_range
       ("graceful_restart_time_s ("
        +:+ pretty (graceful_restart_time_s sparkConfig)
        +:+ ") should be > 0"));;
  throw_if (graceful_restart_time_s sparkConfig
            <? int32_mul 3 (keepalive_time_s sparkConfig))
    (invalid_argument
       ("graceful_restart_time_s ("
        +:+ pretty (graceful_restart_time_s sparkConfig)
        +:+ ") should be >= 3 * keepalive_time_s ("
        +:+ pretty (keepalive_time_s sparkConfig) +:+ ")"));;
  let sd := step_detector_conf sparkConfig in
  throw_if ((lower_threshold sd <? 0) || (upper_threshold sd <? 0) ||
            (upper_threshold sd <=? lower_threshold sd))
    (invalid_argument
       ("step_detector_conf.lower_threshold ("
        +:+ pretty (lower_threshold sd)
        +:+ ") should be < step_detector_conf.upper_threshold ("
        +:+ pretty (upper_threshold sd) +:+ "), and they should be >= 0"));;
  throw_if ((fast_window_size sd <? 0) || (slow_window_size sd <? 0) ||
            (slow_window_size sd <? fast_window_size sd))
    (invalid_argument
       ("step_detector_conf.fast_window_size ("
        +:+ pretty (fast_window_size sd)
        +:+ ") should be <= step_detector_conf.slow_window_size ("
        +:+ pretty (slow_window_size sd) +:+ "), and they should be >= 0"));;
  throw_if ((lower_threshold sd <? 0) || (upper_threshold sd <? 0) ||
            (upper_threshold sd <=? lower_threshold sd))
    (invalid_argument
       ("step_detector_conf.lower_threshold ("
        +:+ pretty (lower_threshold sd)
        +:+ ") should be < step_detector_conf.upper_threshold ("
        +:+ pretty (upper_threshold sd) +:+ ")")).

(** Monitor *)
Definition check_monitor (monitorConfig : MonitorConfig) : Outcome unit :=
  throw_if (max_event_log monitorConfig <? 0)
    (out_of_range
       ("monitor_max_event_log (" +:+ pretty (max_event_log monitorConfig)
        +:+ ") should be >= 0")).

(** Link Monitor: backoff validation *)
Definition check_linkflap_backoff (lmConf : LinkMonitorConfig)
    : Outcome unit :=
  throw_if (linkflap_initial_backoff_ms lmConf <? 0)
    (out_of_range
       ("linkflap_initial_backoff_ms ("
        +:+ pretty (linkflap_initial_backoff_ms lmConf)
        +:+ ") should be >= 0"));;
  throw_if (linkflap_max_backoff_ms lmConf <? 0)
    (out_of_range
       ("linkflap_max_backoff_ms ("
        +:+ pretty (linkflap_max_backoff_ms lmConf)
        +:+ ") should be >= 0"));;
  throw_if (linkflap_max_backoff_ms lmConf
            <? linkflap_initial_backoff_ms lmConf)
    (out_of_range
       ("linkflap_initial_backoff_ms ("
        +:+ pretty (linkflap_initial_backoff_ms lmConf)
        +:+ ") should be < linkflap_max_backoff_ms ("
        +:+ pretty (linkflap_max_backoff_ms lmConf) +:+ ")")).

(** Link Monitor: the regular expressions to match interface names against *)
Definition populate_interface_regexes (lmConf : LinkMonitorConfig)
    (self : Config) : Outcome Config :=
  let regexOpts := RE2_Options_default in
  inc ← build_regex_set regexOpts
          (fun _ regexErr =>
             invalid_argument
               ("Add include_interface_regexes failed: " +:+ regexErr))
          (invalid_argument "include_interface_regexes compile failed")
          (include_interface_regexes lmConf);
  exc ← build_regex_set regexOpts
          (fun _ regexErr =>
             invalid_argument
               ("Add exclude_interface_regexes failed: " +:+ regexErr))
          (invalid_argument "exclude_interface_regexes compile failed")
          (exclude_interface_regexes lmConf);
  red ← build_regex_set regexOpts
          (fun _ regexErr =>
             invalid_argument
               ("Add redistribute_interface_regexes failed: " +:+ regexErr))
          (invalid_argument "redistribute_interface_regexes compile failed")
          (redistribute_interface_regexes lmConf);
  mret (with_itfRegexes inc exc red self).

(** Prefix Allocation *)
Definition populate_prefix_allocation (self : Config) : Outcome Config :=
  if isPrefixAllocationEnabled self then
    (* by now areaIds should be filled. *)
    throw_if (1 <? size (areaIds_ self))%nat
      (invalid_argument "prefix_allocation only support single area config");;
    match prefix_allocation_config (config_ self) with
    | None =>
        (* check if config exists *)
        Throws (invalid_argument
                  "enable_prefix_allocation = true, but prefix_allocation_config is empty")
    | Some paConf =>
        (* sanity check enum prefix_allocation_mode *)
        throw_if (is_null (enumName_PrefixAllocationMode
                             (prefix_allocation_mode paConf)))
          (invalid_argument "invalid prefix_allocation_mode");;
        let seedPrefix := default EmptyString (seed_prefix paConf) in
        let allocatePfxLen := default 0 (allocate_prefix_len paConf) in
        match prefix_allocation_mode paConf with
        | DYNAMIC_ROOT_NODE =>
            (* populate prefixAllocationParams_ from seed_prefix and
               allocate_prefix_len *)
            params ← createPrefixAllocationParams seedPrefix
                       (to_uint8 allocatePfxLen);
            let self := with_prefixAllocationParams (Some params) self in
            throw_if (isV4 params.1.1 && negb (isV4Enabled self))
              (invalid_argument
                 "v4 seed_prefix detected, but enable_v4 = false");;
            mret self
        | DYNAMIC_LEAF_NODE | STATIC =>
            (* seed_prefix and allocate_prefix_len have to to empty *)
            throw_if (negb (bool_decide (seedPrefix = EmptyString)) ||
                      (0 <? allocatePfxLen))
              (invalid_argument
                 "prefix_allocation_mode != DYNAMIC_ROOT_NODE, seed_prefix and allocate_prefix_len must be empty");;
            mret self
        | PrefixAllocationMode_unnamed _ => mret self
        end
    end
  else mret self.

(** bgp peering *)
Definition populate_bgp_peering (self : Config) : Outcome Config :=
  throw_if (isBgpPeeringEnabled self && is_null (bgp_config (config_ self)))
    (invalid_argument "enable_bgp_peering = true, but bgp_config is empty");;
  if isBgpPeeringEnabled self &&
     is_null (bgp_translation_config (config_ self))
  then
    (* Hack for transioning phase. TODO: Remove after coop is on-boarded *)
    mret (with_config
            (with_bgp_translation_config
               (Some BgpRouteTranslationConfig_default) (config_ self)) self)
  else mret self.

(** watchdog *)
Definition check_watchdog (self : Config) : Outcome unit :=
  throw_if (isWatchdogEnabled self && is_null (watchdog_config (config_ self)))
    (invalid_argument "enable_watchdog = true, but watchdog_config is empty").

Definition populateInternalDb (self : Config) : Outcome Config :=
  self ← populateAreaConfig self;
  check_prefix_forwarding self;;
  check_fib self;;
  let kvConf := kvstore_config (config_ self) in
  check_kvstore kvConf;;
  let sparkConfig := spark_config (config_ self) in
  check_spark sparkConfig;;
  let monitorConfig := monitor_config (config_ self) in
  check_monitor monitorConfig;;
  let lmConf := link_monitor_config (config_ self) in
  check_linkflap_backoff lmConf;;
  self ← populate_interface_regexes lmConf self;
  self ← populate_prefix_allocation self;
  self ← populate_bgp_peering self;
  check_watchdog self;;
  mret self.

(** [Config::Config(configFile)] once the file is read and deserialized into
    the document. *)
Definition Config_new (doc : OpenrConfig) : Outcome Config :=
  populateInternalDb (Config_init doc).

(* ===================================================================== *)
(** ** What a pattern list compiles to *)
(* ===================================================================== *)

(** The set [build_regex_set] returns for a list that RE2 takes: none for the
    empty list, otherwise the set anchored at both ends that holds the
    patterns in the order of the list. *)
Definition regex_set_of (o : RE2_Options) (regexes : list string)
    : option RE2_Set :=
  match regexes with
  | [] => None
  | _ => Some {| set_options := o; set_anchor := ANCHOR_BOTH;
                 set_patterns := regexes |}
  end.

(** RE2 takes the list: every pattern parses under the options and, when the
    list is not empty, the set of them compiles. *)
Definition regexes_compile (o : RE2_Options) (regexes : list string) : Prop :=
  Forall (fun pattern => RE2_parse_error o pattern = None) regexes
  ∧ (regexes ≠ [] →
     RE2_Set_Compile {| set_options := o; set_anchor := ANCHOR_BOTH;
                        set_patterns := regexes |} = true).

(** The options [addAreaRegex] compiles area patterns with. *)
Definition area_regex_options : RE2_Options :=
  set_case_sensitive false RE2_Options_default.

(** The entry [addAreaRegex] stores for an area of the document. *)
Definition area_entry (area : AreaConfig) : AreaConfiguration :=
  {| areaId := area_id area;
     neighborRegexList :=
       regex_set_of area_regex_options (neighbor_regexes area);
     interfaceRegexList :=
       regex_set_of area_regex_options (interface_regexes area) |}.

(** An area [addAreaRegex] takes: it has a pattern, and RE2 takes both of
    its lists. *)
Definition area_compiles (area : AreaConfig) : Prop :=
  (neighbor_regexes area ≠ [] ∨ interface_regexes area ≠ [])
  ∧ regexes_compile area_regex_options (neighbor_regexes area)
  ∧ regexes_compile area_regex_options (interface_regexes area).

(* ===================================================================== *)
(** ** NetworkUtil.h: addresses and prefixes of the thrift interface *)
(* ===================================================================== *)

Section NetworkUtil.

(** [folly::IPAddress::str()], the text of an address. *)
Variable IPAddress_str : IPAddress → string.

(** [thrift::BinaryAddress]: the bytes of the address, and an interface
    name. *)
Record BinaryAddress : Type := {
  addr : list Z;
  ifName : option string;
}.

(** [thrift::IpPrefix] *)
Record IpPrefix : Type := {
  prefixAddress : BinaryAddress;
  prefixLength : Z;
}.

(** What the conversions throw: [folly::IPAddressFormatException] from
    [IPAddress::fromBinary] on bytes that are no address, from the
    [IPAddress] constructor on text that is no address, and the exception of
    [createNetwork]. *)
Inductive ConversionError : Type :=
  | invalid_binary_address (bytes : list Z)
  | invalid_address_text (text : string)
  | invalid_network (e : Exception).

(** [folly::IPAddress::fromBinary]: four bytes are a v4 address, sixteen a
    v6 address, anything else throws. *)
Definition fromBinary (bytes : list Z) : ConversionError + IPAddress :=
  if (length bytes =? 4)%nat then inr (IPAddressV4 (be_value bytes))
  else if (length bytes =? 16)%nat then inr (IPAddressV6 (be_value bytes))
  else inl (invalid_binary_address bytes).

(** [toBinaryAddressImpl]: the bytes of the address appended to an empty
    [BinaryAddress]. *)
Definition toBinaryAddressImpl (byteCount : nat) (w : Z) : BinaryAddress :=
  {| addr := [] ++ be_bytes byteCount w; ifName := None |}.

(** [toBinaryAddress(const folly::IPAddress&)]; a default-constructed
    [folly::IPAddress], of neither family, is [None]. *)
Definition toBinaryAddress (a : option IPAddress) : BinaryAddress :=
  match a with
  | Some (IPAddressV4 w) => toBinaryAddressImpl 4 w
  | Some (IPAddressV6 w) => toBinaryAddressImpl 16 w
  | None => {| addr := []; ifName := None |}
  end.

(** [toBinaryAddress(const std::string&)] *)
Definition toBinaryAddress_text (text : string)
    : ConversionError + BinaryAddress :=
  match IPAddress_tryFromString text with
  | Some a => inr (toBinaryAddress (Some a))
  | None => inl (invalid_address_text text)
  end.

(** [toIPAddress(const thrift::BinaryAddress&)] *)
Definition toIPAddress (bin : BinaryAddress) : ConversionError + IPAddress :=
  fromBinary (addr bin).

(** [toIPNetwork(prefix, applyMask = true)] *)
Definition toIPNetwork (prefix : IpPrefix) (applyMask : bool)
    : ConversionError + CIDRNetwork :=
  match toIPAddress (prefixAddress prefix) with
  | inl e => inl e
  | inr a =>
      match createNetwork (IPAddress_str a) (prefixLength prefix) applyMask with
      | Returns network => inr network
      | Throws e => inl (invalid_network e)
      end
  end.

(** [toIpPrefix(const folly::CIDRNetwork&)] *)
Definition toIpPrefix (network : CIDRNetwork) : IpPrefix :=
  {| prefixAddress := toBinaryAddress (Some network.1);
     prefixLength := network.2 |}.

(** [toIpPrefix(const std::string&)] *)
Definition toIpPrefix_text (prefix : string) : ConversionError + IpPrefix :=
  match createNetwork prefix (-1) true with
  | Returns network => inr (toIpPrefix network)
  | Throws e => inl (invalid_network e)
  end.

(** [toString(const thrift::BinaryAddress&)] *)
Definition toString_BinaryAddress (bin : BinaryAddress)
    : ConversionError + string :=
  match addr bin with
  | [] => inr EmptyString
  | _ => match toIPAddress bin with
         | inl e => inl e
         | inr a => inr (IPAddress_str a)
         end
  end.

(** [toString(const thrift::IpPrefix&)] *)
Definition toString_IpPrefix (ipPrefix : IpPrefix) : ConversionError + string :=
  match toString_BinaryAddress (prefixAddress ipPrefix) with
  | inl e => inl e
  | inr text => inr (text +:+ "/" +:+ pretty (prefixLength ipPrefix))
  end.

End NetworkUtil.

(* ===================================================================== *)
(** ** Sample documents *)
(* ===================================================================== *)

(** Timing values that pass the Spark checks, apart from the port. *)
Definition sample_step_detector : StepDetectorConfig :=
  {| fast_window_size := 10; slow_window_size := 60;
     lower_threshold := 2; upper_threshold := 5 |}.

Definition sample_spark (port : Z) : SparkConfig :=
  {| neighbor_discovery_port := port; hello_time_s := 20;
     fastinit_hello_time_ms := 500; keepalive_time_s := 2;
     hold_time_s := 10; graceful_restart_time_s := 30;
     step_detector_conf := sample_step_detector |}.

Definition sample_link_monitor (initial_backoff max_backoff : Z)
    : LinkMonitorConfig :=
  {| linkflap_initial_backoff_ms := initial_backoff;
     linkflap_max_backoff_ms := max_backoff;
     include_interface_regexes := [];
     exclude_interface_regexes := [];
     redistribute_interface_regexes := [] |}.

(** A document with every optional feature but prefix allocation off and
    no pattern anywhere but in its areas: given no areas, nothing in it is
    handed to RE2. *)
Definition sample_document (areas : list AreaConfig)
    (sparkConfig : SparkConfig) (lmConf : LinkMonitorConfig)
    (enable_prefix_allocation : option bool)
    (paConf : option PrefixAllocationConfig) : OpenrConfig :=
  {| areas := areas;
     prefix_forwarding_type := IP;
     prefix_forwarding_algorithm := SP_ECMP;
     enable_v4 := Some true;
     enable_ordered_fib_programming := None;
     enable_prefix_allocation := enable_prefix_allocation;
     enable_bgp_peering := None;
     enable_watchdog := None;
     kvstore_config := {| flood_rate := None |};
     spark_config := sparkConfig;
     monitor_config := {| max_event_log := 100 |};
     link_monitor_config := lmConf;
     prefix_allocation_config := paConf;
     bgp_config := None;
     bgp_translation_config := None;
     watchdog_config := None |}.

(** The sample document with external peering enabled. *)
Definition sample_peering_document (bgp : option BgpConfig)
    (translation : option BgpRouteTranslationConfig) : OpenrConfig :=
  {| areas := [];
     prefix_forwarding_type := IP;
     prefix_forwarding_algorithm := SP_ECMP;
     enable_v4 := Some true;
     enable_ordered_fib_programming := None;
     enable_prefix_allocation := None;
     enable_bgp_peering := Some true;
     enable_watchdog := None;
     kvstore_config := {| flood_rate := None |};
     spark_config := sample_spark 6666;
     monitor_config := {| max_event_log := 100 |};
     link_monitor_config := sample_link_monitor 60000 300000;
     prefix_allocation_config := None;
     bgp_config := bgp;
     bgp_translation_config := translation;
     watchdog_config := None |}.

(** Three areas, the first and the last with the same id; the first has no
    pattern at all and the second a pattern RE2 cannot parse. *)
Definition sample_duplicate_areas : list AreaConfig :=
  [ {| area_id := "1"; interface_regexes := []; neighbor_regexes := [] |};
    {| area_id := "2"; interface_regexes := ["("]; neighbor_regexes := [] |};
    {| area_id := "1"; interface_regexes := ["eth.*"];
       neighbor_regexes := [".*"] |} ].

(** Four areas with two repeated ids: the second occurrence of "2" comes
    before the second occurrence of "1". *)
Definition sample_nested_duplicate_areas : list AreaConfig :=
  [ {| area_id := "1"; interface_regexes := ["eth.*"];
       neighbor_regexes := [] |};
    {| area_id := "2"; interface_regexes := ["po.*"];
       neighbor_regexes := [] |};
    {| area_id := "2"; interface_regexes := []; neighbor_regexes := [".*"] |};
    {| area_id := "1"; interface_regexes := []; neighbor_regexes := [".*"] |} ].


(** Two areas with different ids: one classifies by interface only, the
    other by neighbor only. *)
Definition sample_areas : list AreaConfig :=
  [ {| area_id := "1"; interface_regexes := ["eth.*"];
       neighbor_regexes := [] |};
    {| area_id := "2"; interface_regexes := [];
       neighbor_regexes := ["rsw.*"; "fsw.*"] |} ].

(** A root-node prefix-allocation sub-document: /24 blocks out of
    10.0.0.0/8. *)
Definition sample_root_allocation : PrefixAllocationConfig :=
  {| prefix_allocation_mode := DYNAMIC_ROOT_NODE;
     seed_prefix := Some "10.0.0.0/8";
     allocate_prefix_len := Some 24 |}.

(** A stand-in for the pattern syntax of RE2 on which examples are run: it
    knows one malformed pattern, a lone opening parenthesis, and takes every
    other pattern as well formed; compilation succeeds. *)
Definition sample_RE2_parse_error (o : RE2_Options) (pattern : string)
    : option string :=
  if bool_decide (pattern = "(") then Some "missing ): (" else None.

Definition sample_RE2_Set_Compile (set : RE2_Set) : bool := true.


(** The object with its document changed by [f]. *)
Definition map_config (f : OpenrConfig → OpenrConfig) (self : Config)
    : Config :=
  with_config (f (config_ self)) self.

#[export] Instance Outcome_fmap : FMap Outcome := fun _ _ f m =>
  match m with
  | Returns a => Returns (f a)
  | Throws e => Throws e
  end.

(* ===================================================================== *)
(** ** Sequencing lemmas *)
(* ===================================================================== *)

Lemma throw_if_false c e : c = false → throw_if c e = Returns tt.
Proof. by intros ->. Qed.

Lemma throw_if_true c e : c = true → throw_if c e = Throws e.
Proof. by intros ->. Qed.

Lemma then_throw_if_false {B} c e (k : Outcome B) :
  c = false → (throw_if c e;; k) = k.
Proof. by intros ->. Qed.

Lemma then_throw_if_true {B} c e (k : Outcome B) :
  c = true → (throw_if c e;; k) = Throws e.
Proof. by intros ->. Qed.

Lemma bind_Returns {A B} (m : Outcome A) (f : A → Outcome B) a :
  m = Returns a → (m ≫= f) = f a.
Proof. by intros ->. Qed.

Lemma bind_Throws {A B} (m : Outcome A) (f : A → Outcome B) e :
  m = Throws e → (m ≫= f) = Throws e.
Proof. by intros ->. Qed.

(** Drops the parameters of the development the goal does not mention. *)
Ltac forget_parameters :=
  repeat match goal with
    | x : string |- _ => clear x
    | x : string → option IPAddress |- _ => clear x
    | x : RE2_Options → string → option string |- _ => clear x
    | x : RE2_Set → bool |- _ => clear x
    end.

(** Turns a boolean comparison goal into arithmetic. *)
Ltac Zbool :=
  rewrite ?orb_false_iff, ?orb_true_iff, ?andb_false_iff, ?andb_true_iff,
    ?negb_true_iff, ?negb_false_iff,
    ?Z.leb_le, ?Z.leb_gt, ?Z.ltb_lt, ?Z.ltb_ge, ?Z.eqb_eq, ?Z.eqb_neq,
    ?bool_decide_eq_true, ?bool_decide_eq_false;
  forget_parameters; try tauto; try lia.

Ltac passes := rewrite then_throw_if_false by Zbool.

(* ===================================================================== *)
(** ** createNetwork and createPrefixAllocationParams *)
(* ===================================================================== *)

Lemma isV4_mask a n : isV4 (mask a n) = isV4 a.
Proof. by destruct a. Qed.

Lemma isV6_mask a n : isV6 (mask a n) = isV6 a.
Proof. by destruct a. Qed.

Lemma isV6_isV4 a : isV6 a = negb (isV4 a).
Proof. by destruct a. Qed.

Lemma bitCount_isV4 a : bitCount a = if isV4 a then 32 else 128.
Proof. by destruct a. Qed.

(** With masking, [createNetwork] returns what it returns without, the
    address masked to the length; it throws the same otherwise. *)
Lemma createNetwork_applyMask s d :
  createNetwork s d true =
  (net ← createNetwork s d false; mret (mask net.1 net.2, net.2)).
Proof.
  unfold createNetwork.
  destruct (255 <? d); [done|]. cbn.
  destruct (_ || _); [done|]. cbn.
  destruct (IPAddress_tryFromString _) as [subnet|]; [|done].
  destruct (split "/" s !! 1%nat) as [piece|]; cbn.
  - destruct (tryTo_uint8 piece) as [n|]; [|done]. cbn.
    by destruct (bitCount subnet <? n).
  - by destruct (bitCount subnet <? _).
Qed.

(** The length [createNetwork] returns is within the family's bit count. *)
Lemma createNetwork_length s d b a l :
  createNetwork s d b = Returns (a, l) →
  l ≤ (if isV4 a then 32 else 128).
Proof.
  assert (∀ a l, createNetwork s d false = Returns (a, l) →
                 l ≤ bitCount a) as Hraw.
  { clear. intros a l. unfold createNetwork.
    destruct (255 <? d); [done|]. cbn.
    destruct (_ || _); [done|]. cbn.
    destruct (IPAddress_tryFromString _) as [subnet|]; [|done].
    destruct (split "/" s !! 1%nat) as [piece|]; cbn.
    - destruct (tryTo_uint8 piece) as [n|]; [|done]. cbn.
      destruct (bitCount subnet <? n) eqn:E; [done|]. cbn.
      intros [= <- <-]. revert E. Zbool.
    - destruct (bitCount subnet <? _) eqn:E; [done|]. cbn.
      intros [= <- <-]. revert E. Zbool. }
  destruct b.
  - rewrite createNetwork_applyMask.
    destruct (createNetwork s d false) as [[a' l']|] eqn:E; [|done].
    cbn. intros [= <- <-]. rewrite isV4_mask, <- bitCount_isV4. by apply Hraw.
  - rewrite <- bitCount_isV4. apply Hraw.
Qed.

(** What [createPrefixAllocationParams] does once the network is parsed. *)
Lemma createPrefixAllocationParams_parsed s t a l :
  s ≠ EmptyString → t ≠ 0 →
  createNetwork s (-1) true = Returns (a, l) →
  createPrefixAllocationParams s t =
  if (t <=? l) || ((if isV4 a then 32 else 128) <? t)
  then Throws (out_of_range
                 ("invalid allocate_prefix_len (" +:+ pretty t
                  +:+ "), valid range = (" +:+ pretty l +:+ ", "
                  +:+ (if isV4 a then "32" else "128") +:+ "]"))
  else Returns ((a, l), t).
Proof.
  intros Hs Ht Hnet. unfold createPrefixAllocationParams.
  passes. rewrite Hnet. cbn. rewrite isV6_isV4.
  destruct (isV4 a); cbn.
  - by destruct (_ || _).
  - by destruct (_ || _).
Qed.

Lemma createPrefixAllocationParams_unfilled s t :
  s = EmptyString ∨ t = 0 →
  createPrefixAllocationParams s t =
  Throws (invalid_argument
            "seed_prefix and allocate_prefix_len must be filled.").
Proof.
  intros H. unfold createPrefixAllocationParams.
  by rewrite then_throw_if_true by Zbool.
Qed.

Lemma createPrefixAllocationParams_unparsed s t e :
  s ≠ EmptyString → t ≠ 0 →
  createNetwork s (-1) true = Throws e →
  createPrefixAllocationParams s t = Throws e.
Proof.
  intros Hs Ht Hnet. unfold createPrefixAllocationParams.
  passes. by rewrite Hnet.
Qed.

(** C5.  [createPrefixAllocationParams("10.0.0.0/8", 24)] returns seed
    length 8 and target length 24; with target 8 or 33 it throws the range
    error; with an empty seed it throws "must be filled".  In general it
    throws "must be filled" whenever the seed is empty or the target is 0,
    and otherwise, for a seed that parses, returns exactly when the target is
    above the declared length and at most 32 (v4) or 128 (v6).  The address
    syntax is any that reads 10.0.0.0 as that v4 address. *)
Theorem createPrefixAllocationParams_accepts_exactly :
  IPAddress_tryFromString "10.0.0.0" = Some (IPAddressV4 0x0A000000) →
  createPrefixAllocationParams "10.0.0.0/8" 24
    = Returns ((IPAddressV4 0x0A000000, 8), 24)
  ∧ createPrefixAllocationParams "10.0.0.0/8" 8
    = Throws (out_of_range
                "invalid allocate_prefix_len (8), valid range = (8, 32]")
  ∧ createPrefixAllocationParams "10.0.0.0/8" 33
    = Throws (out_of_range
                "invalid allocate_prefix_len (33), valid range = (8, 32]")
  ∧ createPrefixAllocationParams "" 24
    = Throws (invalid_argument
                "seed_prefix and allocate_prefix_len must be filled.")
  ∧ (∀ s t, s = EmptyString ∨ t = 0 →
       createPrefixAllocationParams s t
       = Throws (invalid_argument
                   "seed_prefix and allocate_prefix_len must be filled."))
  ∧ (∀ s t a l, s ≠ EmptyString → t ≠ 0 →
       createNetwork s (-1) true = Returns (a, l) →
       (isV4 a = true →
          (returned (createPrefixAllocationParams s t) = true ↔ l < t ≤ 32))
       ∧ (isV6 a = true →
          (returned (createPrefixAllocationParams s t) = true ↔ l < t ≤ 128))).
Proof.
  intros Hsyntax.
  assert (createNetwork "10.0.0.0/8" (-1) true
          = Returns (IPAddressV4 0x0A000000, 8)) as Hnet.
  { unfold createNetwork. cbn -[mask]. rewrite Hsyntax. reflexivity. }
  split_and!.
  - by rewrite createPrefixAllocationParams_parsed
         with (a := IPAddressV4 0x0A000000) (l := 8) by done.
  - by rewrite createPrefixAllocationParams_parsed
         with (a := IPAddressV4 0x0A000000) (l := 8) by done.
  - by rewrite createPrefixAllocationParams_parsed
         with (a := IPAddressV4 0x0A000000) (l := 8) by done.
  - by apply createPrefixAllocationParams_unfilled; left.
  - apply createPrefixAllocationParams_unfilled.
  - intros s t a l Hs Ht Hparsed.
    rewrite (createPrefixAllocationParams_parsed s t a l Hs Ht Hparsed).
    rewrite isV6_isV4.
    split; intros Hfamily; [|apply negb_true_iff in Hfamily];
      rewrite Hfamily; (destruct (_ || _) eqn:E; cbn;
        [split; [done|]; revert E; Zbool | split; [|done]; revert E; Zbool]).
Qed.

Lemma decimal_value_nonneg s : ∀ acc v,
  0 ≤ acc → decimal_value acc s = Some v → 0 ≤ v.
Proof.
  induction s as [|c s IH]; intros acc v Hacc; cbn.
  - by intros [= <-].
  - unfold digit_value. destruct (_ && _) eqn:E; [|done].
    apply IH. revert E. Zbool.
Qed.

Lemma tryTo_uint8_nonneg s n : tryTo_uint8 s = Some n → 0 ≤ n.
Proof.
  unfold tryTo_uint8. destruct s; [done|].
  destruct (decimal_value 0 _) as [v|] eqn:E; [|done].
  destruct (v <=? 255); [|done]. intros [= <-].
  by eapply decimal_value_nonneg, E.
Qed.

(** The length of a network parsed with no default length is not negative. *)
Lemma createNetwork_length_nonneg s a l :
  createNetwork s (-1) false = Returns (a, l) → 0 ≤ l.
Proof.
  unfold createNetwork. cbn.
  destruct (_ || _); [done|]. cbn.
  destruct (IPAddress_tryFromString _) as [subnet|]; [|done].
  destruct (split "/" s !! 1%nat) as [piece|]; cbn.
  - destruct (tryTo_uint8 piece) as [n|] eqn:En; [|done]. cbn.
    destruct (bitCount subnet <? n); [done|]. cbn.
    intros [= <- <-]. by eapply tryTo_uint8_nonneg.
  - destruct subnet; cbn; intros [= <- <-]; lia.
Qed.

(** C4 (amended).  For a seed string that parses, as written, to a base
    address and a declared length, and a target length in the legal range,
    [createPrefixAllocationParams] returns the pair [createNetwork] gives
    with its default masking, unchanged, next to the target length: the
    declared length is as written and the base address is the written
    address with every bit below the declared length cleared. *)
Theorem createPrefixAllocationParams_returns_masked_network s t a l :
  s ≠ EmptyString →
  createNetwork s (-1) false = Returns (a, l) →
  l < t ≤ bitCount a →
  createNetwork s (-1) true = Returns (mask a l, l)
  ∧ createPrefixAllocationParams s t = Returns ((mask a l, l), t).
Proof.
  intros Hs Hraw Hrange.
  assert (createNetwork s (-1) true = Returns (mask a l, l)) as Hnet.
  { by rewrite createNetwork_applyMask, Hraw. }
  split; [done|].
  pose proof (createNetwork_length_nonneg _ _ _ Hraw).
  rewrite (createPrefixAllocationParams_parsed s t _ _ Hs ltac:(lia) Hnet).
  rewrite isV4_mask. rewrite bitCount_isV4 in Hrange.
  destruct (_ || _) eqn:E; [|done]. revert E. Zbool.
Qed.

(* ===================================================================== *)
(** ** populateAreaConfig *)
(* ===================================================================== *)

(** When the first loop runs to its end, the ids it met are pairwise
    different, none was in the set before, and the set has grown by them;
    nothing else in the object has changed. *)
Lemma for_each_emplace_areaId_Returns l : ∀ self self',
  for_each emplace_areaId l self = Returns self' →
  NoDup (area_id <$> l)
  ∧ (∀ x, x ∈ area_id <$> l → x ∉ areaIds_ self)
  ∧ areaIds_ self' = list_to_set (area_id <$> l) ∪ areaIds_ self
  ∧ self' = with_areaIds (areaIds_ self') self.
Proof. forget_parameters.
  induction l as [|area rest IH]; intros self self'; cbn.
  - intros [= <-]. split_and!.
    + constructor.
    + by intros x ?%elem_of_nil.
    + by rewrite (left_id_L ∅ (∪)).
    + by destruct self.
  - destruct (emplace_areaId self area) as [s1|e1] eqn:E; cbn; [|done].
    unfold emplace_areaId in E. case_bool_decide as Hin; [done|].
    injection E as <-.
    intros (Hnd & Hfresh & Hids & Hself)%IH. cbn in *. split_and!.
    + constructor; [|done]. intros Hrest. apply (Hfresh _ Hrest). set_solver.
    + intros x [->|Hx]%elem_of_cons; [done|].
      specialize (Hfresh _ Hx). set_solver.
    + rewrite Hids. set_solver.
    + by rewrite Hself.
Qed.

(** When the first loop throws, it throws the duplicate error for the id of
    some area whose id was in the set before or is the id of an area earlier
    in the list. *)
Lemma for_each_emplace_areaId_Throws l : ∀ self e,
  for_each emplace_areaId l self = Throws e →
  ∃ j b, l !! j = Some b
    ∧ e = invalid_argument
            ("Duplicate area config: area_id " +:+ area_id b)
    ∧ (area_id b ∈ areaIds_ self
       ∨ ∃ i a, (i < j)%nat ∧ l !! i = Some a ∧ area_id a = area_id b).
Proof.
  induction l as [|area rest IH]; intros self e; cbn; [done|].
  destruct (emplace_areaId self area) as [s1|e1] eqn:E; cbn;
    unfold emplace_areaId in E; case_bool_decide as Hin; try done.
  - injection E as <-. intros (j & b & Hj & He & Hdup)%IH. cbn in Hdup.
    exists (S j), b. split_and!; [done..|].
    destruct Hdup as [[Hb%elem_of_singleton|Hb]%elem_of_union
                     |(i & a & Hij & Hi & Ha)].
    + right. exists 0%nat, area. split_and!; [lia|done..].
    + by left.
    + right. exists (S i), a. split_and!; [lia|done..].
  - injection E as <-. intros [= <-].
    exists 0%nat, area. by split_and!; [..|left].
Qed.

(** The first loop throws at the first area whose id it has met: with the
    ids before it pairwise different and not in the set, and its own id in
    the set or among them, the error names its id, whatever follows. *)
Lemma for_each_emplace_areaId_first_repeat pre d post : ∀ self,
  NoDup (area_id <$> pre) →
  (∀ x, x ∈ area_id <$> pre → x ∉ areaIds_ self) →
  area_id d ∈ areaIds_ self ∨ area_id d ∈ area_id <$> pre →
  for_each emplace_areaId (pre ++ d :: post) self
  = Throws (invalid_argument
              ("Duplicate area config: area_id " +:+ area_id d)).
Proof. forget_parameters.
  induction pre as [|area rest IH]; intros self Hnd Hfresh Hd; cbn.
  - destruct Hd as [Hd|Hd]; [|by apply elem_of_nil in Hd].
    unfold emplace_areaId. by rewrite bool_decide_true by done.
  - cbn in Hnd. apply NoDup_cons in Hnd as [Harea Hnd].
    assert (area_id area ∉ areaIds_ self) as Hnew
      by (apply Hfresh; cbn; apply elem_of_cons; by left).
    unfold emplace_areaId at 2. rewrite bool_decide_false by done. cbn.
    apply IH; [done|..].
    + intros x Hx. cbn. intros [Hx'%elem_of_singleton|Hx']%elem_of_union.
      * by subst x.
      * apply (Hfresh x); [|done]. cbn. apply elem_of_cons. by right.
    + cbn. destruct Hd as [Hd|[Hd|Hd]%elem_of_cons].
      * left. apply elem_of_union. by right.
      * left. apply elem_of_union. left. by apply elem_of_singleton.
      * by right.
Qed.

(** A list of areas has pairwise different ids, or a first area whose id
    has occurred before it. *)
Lemma area_ids_first_repeat (l : list AreaConfig) :
  NoDup (area_id <$> l)
  ∨ ∃ pre d post,
      l = pre ++ d :: post
      ∧ NoDup (area_id <$> pre) ∧ area_id d ∈ area_id <$> pre.
Proof. forget_parameters.
  induction l as [|x l IH] using rev_ind; [left; constructor|].
  destruct IH as [Hnd|(pre & d & post & -> & Hnd & Hd)].
  - destruct (decide (area_id x ∈ area_id <$> l)) as [Hx|Hx].
    + right. by exists l, x, [].
    + left. rewrite fmap_app. apply NoDup_app. split_and!; [done| |].
      * intros y Hy [->|[]%elem_of_nil]%elem_of_cons. done.
      * cbn. apply NoDup_singleton.
  - right. exists pre, d, (post ++ [x]). by rewrite <- app_assoc.
Qed.

(** C7.  When two areas of the document carry the same id, populating the
    area configuration throws the duplicate-area error, whatever the pattern
    lists of the areas and whatever RE2 makes of them: the uniqueness loop
    over all areas comes before any pattern is added to a set.  The id named
    is the id of the first area of the list whose id occurs before it; it is
    the id of the two areas given when no other id repeats.  Constructing the
    object throws the same error. *)
Theorem populateAreaConfig_duplicate_before_patterns doc i j a b :
  areas doc !! i = Some a → areas doc !! j = Some b →
  i ≠ j → area_id a = area_id b →
  ∃ pre d post,
    areas doc = pre ++ d :: post
    ∧ NoDup (area_id <$> pre)
    ∧ area_id d ∈ area_id <$> pre
    ∧ populateAreaConfig (Config_init doc)
      = Throws (invalid_argument
                  ("Duplicate area config: area_id " +:+ area_id d))
    ∧ Config_new doc
      = Throws (invalid_argument
                  ("Duplicate area config: area_id " +:+ area_id d))
    ∧ ((∀ i' j' a' b', i' ≠ j' →
          areas doc !! i' = Some a' → areas doc !! j' = Some b' →
          area_id a' = area_id b' → area_id a' = area_id a) →
       area_id d = area_id a).
Proof.
  intros Hi Hj Hij Hab.
  assert (areas doc ≠ []) as Hne by (by intros E; rewrite E in Hi).
  destruct (area_ids_first_repeat (areas doc))
    as [Hnd|(pre & d & post & Hsplit & Hnd & Hd)].
  { exfalso. apply Hij. eapply NoDup_lookup; [exact Hnd|..].
    - by rewrite list_lookup_fmap, Hi.
    - by rewrite list_lookup_fmap, Hj, Hab. }
  assert (populateAreaConfig (Config_init doc)
          = Throws (invalid_argument
                      ("Duplicate area config: area_id " +:+ area_id d)))
    as Hpop.
  { unfold populateAreaConfig. cbn.
    rewrite bool_decide_false by done. rewrite Hsplit.
    rewrite for_each_emplace_areaId_first_repeat; [done..| |by right].
    intros x _. cbn. apply not_elem_of_empty. }
  exists pre, d, post. split_and!; [done..| |].
  - unfold Config_new, populateInternalDb. by rewrite Hpop.
  - intros Honly.
    apply list_elem_of_fmap in Hd as (a' & Ha' & Hin).
    apply list_elem_of_lookup in Hin as [i' Hi'].
    pose proof (lookup_lt_Some _ _ _ Hi') as Hlt.
    rewrite Ha'.
    apply (Honly i' (length pre) a' d); [lia| | |by symmetry].
    + rewrite Hsplit. by apply lookup_app_l_Some.
    + rewrite Hsplit. by rewrite list_lookup_middle.
Qed.

(** With no area in the document the first loop takes the id of the default
    area and the second loop, which goes over the areas of the document, has
    nothing to go over: no [AreaConfiguration] is made. *)
Lemma populateAreaConfig_no_areas self :
  areas (config_ self) = [] → areaIds_ self = ∅ →
  populateAreaConfig self = Returns (with_areaIds {[kDefaultArea]} self).
Proof.
  intros Hareas Hids. unfold populateAreaConfig.
  rewrite bool_decide_true by done. cbn.
  unfold emplace_areaId. cbn.
  rewrite bool_decide_false by (rewrite Hids; set_solver). cbn.
  rewrite Hareas, Hids. cbn. by rewrite (right_id_L ∅ (∪)).
Qed.

(* ===================================================================== *)
(** ** The Spark checks *)
(* ===================================================================== *)

(** A value of [int32_t] is its own wrap, and a product that fits the type
    is the product of the integers. *)
Lemma int32_wrap_small v : - 2 ^ 31 ≤ v < 2 ^ 31 → int32_wrap v = v.
Proof. forget_parameters.
  intros Hv. unfold int32_wrap. rewrite Z.mod_small by lia. lia.
Qed.

Lemma int32_wrap_range v : - 2 ^ 31 ≤ int32_wrap v < 2 ^ 31.
Proof. forget_parameters.
  unfold int32_wrap.
  pose proof (Z.mod_pos_bound (v + 2 ^ 31) (2 ^ 32) ltac:(lia)). lia.
Qed.

Lemma int32_mul_small a b :
  - 2 ^ 31 ≤ a * b < 2 ^ 31 → int32_mul a b = a * b.
Proof. apply int32_wrap_small. Qed.

(** C6.  With a discovery port and a step detector that pass their checks:
    keepalive 10 with hold 10 passes and keepalive 11 with hold 10 throws the
    keepalive error; fast-init 60000 with hello 60 passes and 60001 throws
    the fast-init error; graceful restart 30 with keepalive 10 passes and 29
    throws the graceful-restart error.  In each case the remaining timing
    values are any values that pass the checks met before, the products
    [1000 * hello] and [3 * keepalive] being the 32-bit ones of the program;
    these are the products of the integers for a hello of at most 2147483
    and a keepalive of at most 715827882 seconds. *)
Theorem check_spark_timing_boundaries port sd :
  0 < port ≤ 65535 →
  0 ≤ lower_threshold sd < upper_threshold sd →
  0 ≤ fast_window_size sd ≤ slow_window_size sd →
  let spark keepalive hold fastinit hello graceful_restart :=
    {| neighbor_discovery_port := port; hello_time_s := hello;
       fastinit_hello_time_ms := fastinit; keepalive_time_s := keepalive;
       hold_time_s := hold; graceful_restart_time_s := graceful_restart;
       step_detector_conf := sd |} in
  (∀ fastinit hello graceful_restart,
     0 < hello → 0 < fastinit ≤ int32_mul 1000 hello →
     30 ≤ graceful_restart →
     check_spark (spark 10 10 fastinit hello graceful_restart) = Returns tt)
  ∧ (∀ fastinit hello graceful_restart,
     0 < hello → 0 < fastinit ≤ int32_mul 1000 hello →
     check_spark (spark 11 10 fastinit hello graceful_restart)
     = Throws (invalid_argument
                 "keepalive_time_s (11) should be <= hold_time_s (10)"))
  ∧ (∀ keepalive hold graceful_restart,
     0 < keepalive ≤ hold → 0 < graceful_restart →
     int32_mul 3 keepalive ≤ graceful_restart →
     check_spark (spark keepalive hold 60000 60 graceful_restart)
     = Returns tt)
  ∧ (∀ keepalive hold graceful_restart,
     check_spark (spark keepalive hold 60001 60 graceful_restart)
     = Throws (invalid_argument
                 "fastinit_hello_time_ms (60001) should be <= hold_time_s (60) * 1000"))
  ∧ (∀ hold fastinit hello,
     10 ≤ hold → 0 < hello → 0 < fastinit ≤ int32_mul 1000 hello →
     check_spark (spark 10 hold fastinit hello 30) = Returns tt)
  ∧ (∀ hold fastinit hello,
     10 ≤ hold → 0 < hello → 0 < fastinit ≤ int32_mul 1000 hello →
     check_spark (spark 10 hold fastinit hello 29)
     = Throws (invalid_argument
                 "graceful_restart_time_s (29) should be >= 3 * keepalive_time_s (10)"))
  ∧ (∀ hello, 0 < hello ≤ 2147483 → int32_mul 1000 hello = 1000 * hello)
  ∧ (∀ keepalive,
     0 < keepalive ≤ 715827882 → int32_mul 3 keepalive = 3 * keepalive).
Proof.
  intros Hport Hthreshold Hwindow spark. subst spark.
  split_and!; intros; try (apply int32_mul_small; lia);
    unfold check_spark; cbn [neighbor_discovery_port
    hello_time_s fastinit_hello_time_ms keepalive_time_s hold_time_s
    graceful_restart_time_s step_detector_conf];
    change (int32_mul 1000 60) with 60000;
    change (int32_mul 3 10) with 30;
    change (int32_mul 3 11) with 33.
  - do 11 passes. by rewrite throw_if_false by Zbool.
  - do 5 passes. by rewrite then_throw_if_true by Zbool.
  - do 11 passes. by rewrite throw_if_false by Zbool.
  - do 3 passes. by rewrite then_throw_if_true by Zbool.
  - do 11 passes. by rewrite throw_if_false by Zbool.
  - do 8 passes. by rewrite then_throw_if_true by Zbool.
Qed.

(* ===================================================================== *)
(** ** What the parts of populateInternalDb leave alone *)
(* ===================================================================== *)

Lemma for_each_preserves {A S T} (proj : S → T) (body : S → A → Outcome S) l :
  (∀ s x s', body s x = Returns s' → proj s' = proj s) →
  ∀ s s', for_each body l s = Returns s' → proj s' = proj s.
Proof.
  intros Hbody. induction l as [|x rest IH]; intros s s'; cbn.
  - by intros [= <-].
  - destruct (body s x) as [s1|] eqn:E; cbn; [|done].
    intros ->%IH. by eapply Hbody.
Qed.

Lemma for_each_fmap {A S} (g : S → S) (body : S → A → Outcome S) l :
  (∀ s x, body (g s) x = g <$> body s x) →
  ∀ s, for_each body l (g s) = g <$> for_each body l s.
Proof.
  intros Hbody. induction l as [|x rest IH]; intros s; cbn; [done|].
  rewrite Hbody. destruct (body s x) as [s1|]; cbn; [|done]. apply IH.
Qed.

Lemma addAreaRegex_preserves self id nrs irs self' :
  addAreaRegex self id nrs irs = Returns self' →
  (config_ self', prefixAllocationParams_ self')
  = (config_ self, prefixAllocationParams_ self).
Proof.
  unfold addAreaRegex. destruct (throw_if _ _); cbn; [|done].
  destruct (build_regex_set _ _ _ nrs); cbn; [|done].
  destruct (build_regex_set _ _ _ irs); cbn; [|done].
  by intros [= <-].
Qed.

Lemma populateAreaConfig_preserves self self' :
  populateAreaConfig self = Returns self' →
  (config_ self', prefixAllocationParams_ self')
  = (config_ self, prefixAllocationParams_ self).
Proof.
  unfold populateAreaConfig. cbn.
  destruct (for_each emplace_areaId _ self) as [s1|] eqn:E1; cbn; [|done].
  apply for_each_emplace_areaId_Returns in E1 as (_ & _ & _ & ->). cbn.
  intros E2. eapply (for_each_preserves
    (fun s => (config_ s, prefixAllocationParams_ s))) in E2; [done|].
  intros s x s'. apply addAreaRegex_preserves.
Qed.

Lemma populate_interface_regexes_preserves lmConf self self' :
  populate_interface_regexes lmConf self = Returns self' →
  (config_ self', prefixAllocationParams_ self')
  = (config_ self, prefixAllocationParams_ self).
Proof.
  unfold populate_interface_regexes.
  destruct (build_regex_set _ _ _ (include_interface_regexes _)); cbn;
    [|done].
  destruct (build_regex_set _ _ _ (exclude_interface_regexes _)); cbn;
    [|done].
  destruct (build_regex_set _ _ _ (redistribute_interface_regexes _)); cbn;
    [|done].
  by intros [= <-].
Qed.

Lemma populate_prefix_allocation_config self self' :
  populate_prefix_allocation self = Returns self' →
  config_ self' = config_ self.
Proof.
  unfold populate_prefix_allocation.
  destruct (isPrefixAllocationEnabled self); [|by intros [= <-]].
  destruct (1 <? size _)%nat; cbn; [done|].
  destruct (prefix_allocation_config _) as [paConf|]; [|done].
  destruct (is_null _); cbn; [done|].
  destruct (prefix_allocation_mode paConf); cbn.
  - destruct (_ || _); cbn; [done|]. by intros [= <-].
  - destruct (createPrefixAllocationParams _ _); cbn; [|done].
    destruct (_ && _); cbn; [done|]. by intros [= <-].
  - destruct (_ || _); cbn; [done|]. by intros [= <-].
  - by intros [= <-].
Qed.

(** With prefix allocation off, the prefix allocation part is a no-op. *)
Lemma populate_prefix_allocation_disabled self :
  isPrefixAllocationEnabled self = false →
  populate_prefix_allocation self = Returns self.
Proof. unfold populate_prefix_allocation. by intros ->. Qed.

(** In the leaf-node and static modes the part throws exactly when the seed
    is not empty or the length is above zero, and derives nothing. *)
Lemma populate_prefix_allocation_not_root self paConf :
  isPrefixAllocationEnabled self = true →
  (size (areaIds_ self) ≤ 1)%nat →
  prefix_allocation_config (config_ self) = Some paConf →
  prefix_allocation_mode paConf = DYNAMIC_LEAF_NODE
  ∨ prefix_allocation_mode paConf = STATIC →
  populate_prefix_allocation self =
  if negb (bool_decide (default EmptyString (seed_prefix paConf)
                        = EmptyString))
     || (0 <? default 0 (allocate_prefix_len paConf))
  then Throws (invalid_argument
                 "prefix_allocation_mode != DYNAMIC_ROOT_NODE, seed_prefix and allocate_prefix_len must be empty")
  else Returns self.
Proof.
  intros Hen Hsize Hpa Hmode. unfold populate_prefix_allocation.
  rewrite Hen, Hpa.
  rewrite then_throw_if_false by (apply Nat.ltb_ge; lia).
  destruct Hmode as [-> | ->]; cbn; by destruct (_ || _).
Qed.

(** A construction that returns has gone through every part; the document
    reaches the peering part as it was given. *)
Lemma Config_new_Returns doc c :
  Config_new doc = Returns c →
  ∃ s1 s2 s3,
    populateAreaConfig (Config_init doc) = Returns s1
    ∧ check_spark (spark_config doc) = Returns tt
    ∧ check_linkflap_backoff (link_monitor_config doc) = Returns tt
    ∧ populate_interface_regexes (link_monitor_config doc) s1 = Returns s2
    ∧ populate_prefix_allocation s2 = Returns s3
    ∧ populate_bgp_peering s3 = Returns c
    ∧ config_ s1 = doc ∧ config_ s2 = doc ∧ config_ s3 = doc
    ∧ prefixAllocationParams_ s2 = None.
Proof.
  unfold Config_new, populateInternalDb.
  destruct (populateAreaConfig _) as [s1|] eqn:E1; cbn; [|done].
  pose proof (populateAreaConfig_preserves _ _ E1) as [= Hc1 Hp1].
  cbn in Hc1, Hp1. rewrite Hc1.
  destruct (check_prefix_forwarding s1) as [[]|]; cbn; [|done].
  destruct (check_fib s1) as [[]|]; cbn; [|done].
  destruct (check_kvstore _) as [[]|]; cbn; [|done].
  destruct (check_spark _) as [[]|]; cbn; [|done].
  destruct (check_monitor _) as [[]|]; cbn; [|done].
  destruct (check_linkflap_backoff _) as [[]|]; cbn; [|done].
  destruct (populate_interface_regexes _ s1) as [s2|] eqn:E2; cbn; [|done].
  pose proof (populate_interface_regexes_preserves _ _ _ E2) as [= Hc2 Hp2].
  destruct (populate_prefix_allocation s2) as [s3|] eqn:E3; cbn; [|done].
  pose proof (populate_prefix_allocation_config _ _ E3) as Hc3.
  destruct (populate_bgp_peering s3) as [s4|] eqn:E4; cbn; [|done].
  destruct (check_watchdog s4) as [[]|]; cbn; [|done].
  intros [= <-]. exists s1, s2, s3. split_and!; congruence.
Qed.

(* ===================================================================== *)
(** ** External peering *)
(* ===================================================================== *)

(** C9.  With peering enabled and no [bgp_config], the peering part throws
    and so does the construction of the object.  With peering enabled, a
    [bgp_config] present and no [bgp_translation_config], the part does not
    throw: it returns an object whose document holds a default-constructed
    translation sub-document, the [bgp_config] it had, and peering still
    enabled, with nothing else changed; and an object that is constructed
    from such a document holds the default translation sub-document and the
    [bgp_config] of the document. *)
Theorem populate_bgp_peering_translation_default :
  (∀ self,
     isBgpPeeringEnabled self = true → bgp_config (config_ self) = None →
     populate_bgp_peering self
     = Throws (invalid_argument
                 "enable_bgp_peering = true, but bgp_config is empty"))
  ∧ (∀ doc,
     enable_bgp_peering doc = Some true → bgp_config doc = None →
     thrown (Config_new doc) = true)
  ∧ (∀ self bgp,
     isBgpPeeringEnabled self = true →
     bgp_config (config_ self) = Some bgp →
     bgp_translation_config (config_ self) = None →
     populate_bgp_peering self
     = Returns (map_config
                  (with_bgp_translation_config
                     (Some BgpRouteTranslationConfig_default)) self))
  ∧ (∀ self bgp,
     isBgpPeeringEnabled self = true →
     bgp_config (config_ self) = Some bgp →
     bgp_translation_config (config_ self) = None →
     ∃ self',
       populate_bgp_peering self = Returns self'
       ∧ bgp_translation_config (config_ self')
         = Some BgpRouteTranslationConfig_default
       ∧ bgp_config (config_ self') = Some bgp
       ∧ isBgpPeeringEnabled self' = true)
  ∧ (∀ doc bgp c,
     enable_bgp_peering doc = Some true →
     bgp_config doc = Some bgp → bgp_translation_config doc = None →
     Config_new doc = Returns c →
     config_ c = with_bgp_translation_config
                   (Some BgpRouteTranslationConfig_default) doc)
  ∧ (∀ doc bgp c,
     enable_bgp_peering doc = Some true →
     bgp_config doc = Some bgp → bgp_translation_config doc = None →
     Config_new doc = Returns c →
     bgp_translation_config (config_ c)
     = Some BgpRouteTranslationConfig_default
     ∧ bgp_config (config_ c) = Some bgp
     ∧ enable_bgp_peering (config_ c) = Some true).
Proof.
  assert (∀ self,
     isBgpPeeringEnabled self = true → bgp_config (config_ self) = None →
     populate_bgp_peering self
     = Throws (invalid_argument
                 "enable_bgp_peering = true, but bgp_config is empty"))
    as Habsent.
  { intros self Hen Hbgp. unfold populate_bgp_peering.
    by rewrite Hen, Hbgp. }
  assert (∀ self bgp,
     isBgpPeeringEnabled self = true →
     bgp_config (config_ self) = Some bgp →
     bgp_translation_config (config_ self) = None →
     populate_bgp_peering self
     = Returns (map_config
                  (with_bgp_translation_config
                     (Some BgpRouteTranslationConfig_default)) self))
    as Hdefault.
  { intros self bgp Hen Hbgp Htr. unfold populate_bgp_peering.
    by rewrite Hen, Hbgp, Htr. }
  assert (∀ doc bgp c,
     enable_bgp_peering doc = Some true →
     bgp_config doc = Some bgp → bgp_translation_config doc = None →
     Config_new doc = Returns c →
     config_ c = with_bgp_translation_config
                   (Some BgpRouteTranslationConfig_default) doc)
    as Hstored.
  { intros doc bgp c Hen Hbgp Htr E.
    apply Config_new_Returns in E
      as (s1 & s2 & s3 & _ & _ & _ & _ & _ & E & _ & _ & Hc3 & _).
    rewrite (Hdefault s3 bgp) in E.
    + injection E as <-. cbn. by rewrite Hc3.
    + unfold isBgpPeeringEnabled. by rewrite Hc3, Hen.
    + by rewrite Hc3.
    + by rewrite Hc3. }
  split_and!; [done| |done| |done|].
  - intros doc Hen Hbgp.
    destruct (Config_new doc) as [c|] eqn:E; [|done].
    apply Config_new_Returns in E
      as (s1 & s2 & s3 & _ & _ & _ & _ & _ & E & _ & _ & Hc3 & _).
    rewrite Habsent in E; [done|..].
    + unfold isBgpPeeringEnabled. by rewrite Hc3, Hen.
    + by rewrite Hc3.
  - intros self bgp Hen Hbgp Htr. eexists. split; [by eapply Hdefault|].
    unfold isBgpPeeringEnabled in *. destruct self as [doc ?]. cbn in *.
    by destruct doc.
  - intros doc bgp c Hen Hbgp Htr E.
    rewrite (Hstored doc bgp c Hen Hbgp Htr E).
    by destruct doc.
Qed.

(* ===================================================================== *)
(** ** Prefix allocation switched off *)
(* ===================================================================== *)

Lemma emplace_areaId_map_config f self area :
  emplace_areaId (map_config f self) area
  = map_config f <$> emplace_areaId self area.
Proof. unfold emplace_areaId. cbn. by case_bool_decide. Qed.

Lemma addAreaRegex_map_config f self id nrs irs :
  addAreaRegex (map_config f self) id nrs irs
  = map_config f <$> addAreaRegex self id nrs irs.
Proof.
  unfold addAreaRegex. destruct (throw_if _ _); cbn; [|done].
  destruct (build_regex_set _ _ _ nrs); cbn; [|done].
  by destruct (build_regex_set _ _ _ irs).
Qed.

(** A change of the document that keeps its areas goes through
    [populateAreaConfig]. *)
Lemma populateAreaConfig_map_config f self :
  (∀ doc, areas (f doc) = areas doc) →
  populateAreaConfig (map_config f self)
  = map_config f <$> populateAreaConfig self.
Proof.
  intros Hf. unfold populateAreaConfig. cbn. rewrite Hf.
  rewrite (for_each_fmap (map_config f))
    by apply emplace_areaId_map_config.
  destruct (for_each emplace_areaId _ self) as [s1|] eqn:E; cbn; [|done].
  rewrite Hf.
  apply (for_each_fmap (map_config f)). intros s x.
  apply addAreaRegex_map_config.
Qed.


(* ===================================================================== *)
(** ** Where the code and the specification part *)
(* ===================================================================== *)

(** The discovery port check passes exactly from 1 to 65535. *)
Lemma check_spark_port sparkConfig :
  neighbor_discovery_port sparkConfig ≤ 0
  ∨ 65535 < neighbor_discovery_port sparkConfig →
  check_spark sparkConfig
  = Throws (out_of_range
              ("neighbor_discovery_port ("
               +:+ pretty (neighbor_discovery_port sparkConfig)
               +:+ ") should be in range [0, 65535]")).
Proof.
  intros H. unfold check_spark. by rewrite then_throw_if_true by Zbool.
Qed.

Lemma check_spark_Returns_port sparkConfig :
  check_spark sparkConfig = Returns tt →
  1 ≤ neighbor_discovery_port sparkConfig ≤ 65535.
Proof.
  intros E.
  destruct (decide (neighbor_discovery_port sparkConfig ≤ 0
                    ∨ 65535 < neighbor_discovery_port sparkConfig)) as [H|H].
  - by rewrite check_spark_port in E.
  - lia.
Qed.

(** The backoff checks pass exactly when neither value is negative and the
    initial backoff is not above the max backoff. *)
Lemma check_linkflap_backoff_Returns lmConf :
  check_linkflap_backoff lmConf = Returns tt
  ↔ 0 ≤ linkflap_initial_backoff_ms lmConf
    ∧ 0 ≤ linkflap_max_backoff_ms lmConf
    ∧ linkflap_initial_backoff_ms lmConf ≤ linkflap_max_backoff_ms lmConf.
Proof.
  unfold check_linkflap_backoff. split.
  - destruct (linkflap_initial_backoff_ms lmConf <? 0) eqn:E1; [done|].
    destruct (linkflap_max_backoff_ms lmConf <? 0) eqn:E2; [done|].
    destruct (linkflap_max_backoff_ms lmConf
              <? linkflap_initial_backoff_ms lmConf) eqn:E3; [done|].
    intros _. revert E1 E2 E3. Zbool.
  - intros (H1 & H2 & H3). do 2 passes. by rewrite throw_if_false by Zbool.
Qed.

(** Constructing the object from a sample document without areas: the area
    part leaves the default id and nothing else, and the parts up to the
    Spark checks pass. *)
Lemma Config_new_sample_no_areas sparkConfig lmConf epa paConf :
  let doc := sample_document [] sparkConfig lmConf epa paConf in
  Config_new doc =
  (check_spark sparkConfig;;
   check_linkflap_backoff lmConf;;
   self ← populate_interface_regexes lmConf
            (with_areaIds {[kDefaultArea]} (Config_init doc));
   self ← populate_prefix_allocation self;
   self ← populate_bgp_peering self;
   check_watchdog self;;
   mret self).
Proof.
  intros doc. unfold Config_new, populateInternalDb.
  by rewrite populateAreaConfig_no_areas.
Qed.

(** C1.  For a document with no areas, populating the area configuration
    returns with the id of the default area as the one area id, and with no
    [AreaConfiguration] at all: the second loop goes over the areas of the
    document, which are none, so the patterns of the default area are never
    made into a classifier and nothing is stored under the default id.  The
    object constructed from such a document is in that state. *)
Theorem populateAreaConfig_no_areas_no_classifier sparkConfig lmConf epa paConf :
  let doc := sample_document [] sparkConfig lmConf epa paConf in
  populateAreaConfig (Config_init doc)
  = Returns (with_areaIds {[kDefaultArea]} (Config_init doc))
  ∧ areaConfigs_ (with_areaIds {[kDefaultArea]} (Config_init doc)) = ∅
  ∧ areaConfigs_ (with_areaIds {[kDefaultArea]} (Config_init doc))
      !! kDefaultArea = None
  ∧ Config_new (sample_document [] (sample_spark 6666)
                  (sample_link_monitor 60000 300000) None None)
    = Returns (with_areaIds {[kDefaultArea]}
                 (Config_init (sample_document [] (sample_spark 6666)
                                 (sample_link_monitor 60000 300000)
                                 None None))).
Proof.
  intros doc. split_and!.
  - by apply populateAreaConfig_no_areas.
  - done.
  - done.
  - by rewrite Config_new_sample_no_areas.
Qed.

(** C2.  A discovery port of 0 is thrown out, with the message that gives
    the range as [0, 65535]: the check is [port <= 0 || port > 65535]. *)
Theorem check_spark_rejects_port_zero hello fastinit keepalive hold
    graceful_restart sd lmConf epa paConf :
  check_spark
    {| neighbor_discovery_port := 0; hello_time_s := hello;
       fastinit_hello_time_ms := fastinit; keepalive_time_s := keepalive;
       hold_time_s := hold; graceful_restart_time_s := graceful_restart;
       step_detector_conf := sd |}
  = Throws (out_of_range
              "neighbor_discovery_port (0) should be in range [0, 65535]")
  ∧ check_spark (sample_spark 1) = Returns tt
  ∧ Config_new (sample_document [] (sample_spark 0) lmConf epa paConf)
    = Throws (out_of_range
                "neighbor_discovery_port (0) should be in range [0, 65535]").
Proof.
  split_and!; [done..|]. by rewrite Config_new_sample_no_areas.
Qed.

(** C3.  An initial backoff equal to the max backoff passes the backoff
    checks, whatever the value from 0 up: the last check is
    [initial > max].  The object is constructed. *)
Theorem check_linkflap_backoff_accepts_equal (backoff : N) :
  check_linkflap_backoff
    (sample_link_monitor (Z.of_N backoff) (Z.of_N backoff)) = Returns tt
  ∧ returned
      (Config_new (sample_document [] (sample_spark 6666)
                     (sample_link_monitor (Z.of_N backoff) (Z.of_N backoff))
                     None None)) = true.
Proof.
  assert (check_linkflap_backoff
            (sample_link_monitor (Z.of_N backoff) (Z.of_N backoff))
          = Returns tt) as Hpass.
  { unfold check_linkflap_backoff. cbn [sample_link_monitor
      linkflap_initial_backoff_ms linkflap_max_backoff_ms].
    do 2 passes. by rewrite throw_if_false by Zbool. }
  split; [done|].
  rewrite Config_new_sample_no_areas.
  change (check_spark (sample_spark 6666)) with (Returns tt).
  by rewrite Hpass.
Qed.

(** C8.  With prefix allocation enabled in the static or the leaf-node
    mode, an empty seed and a length below zero, the object is constructed:
    the check on the length is [allocatePfxLen > 0].  No parameters are
    derived. *)
Theorem populate_prefix_allocation_accepts_negative_length (len : positive) :
  let static := {| prefix_allocation_mode := STATIC;
                   seed_prefix := None;
                   allocate_prefix_len := Some (Z.neg len) |} in
  let leaf := {| prefix_allocation_mode := DYNAMIC_LEAF_NODE;
                 seed_prefix := Some EmptyString;
                 allocate_prefix_len := Some (Z.neg len) |} in
  let doc paConf := sample_document [] (sample_spark 6666)
                      (sample_link_monitor 60000 300000)
                      (Some true) (Some paConf) in
  Config_new (doc static)
  = Returns (with_areaIds {[kDefaultArea]} (Config_init (doc static)))
  ∧ Config_new (doc leaf)
    = Returns (with_areaIds {[kDefaultArea]} (Config_init (doc leaf)))
  ∧ prefixAllocationParams_
      (with_areaIds {[kDefaultArea]} (Config_init (doc static))) = None.
Proof.
  intros static leaf doc.
  assert (∀ paConf,
    prefix_allocation_mode paConf = DYNAMIC_LEAF_NODE
    ∨ prefix_allocation_mode paConf = STATIC →
    default EmptyString (seed_prefix paConf) = EmptyString →
    default 0 (allocate_prefix_len paConf) = Z.neg len →
    Config_new (doc paConf)
    = Returns (with_areaIds {[kDefaultArea]} (Config_init (doc paConf))))
    as Hnew.
  { intros paConf Hmode Hseed Hlen. unfold doc.
    rewrite Config_new_sample_no_areas.
    cbn -[populate_prefix_allocation].
    rewrite (populate_prefix_allocation_not_root _ paConf);
      [|done|by cbn; rewrite size_singleton|done..].
    by rewrite Hseed, Hlen. }
  split_and!; [apply Hnew; auto..|done].
Qed.

(* ===================================================================== *)
(** ** Pattern sets and the area map *)
(* ===================================================================== *)

Lemma add_regexes_Returns failed regexes : ∀ set set',
  add_regexes failed regexes set = Returns set'
  ↔ Forall (fun pattern => RE2_parse_error (set_options set) pattern = None)
      regexes
    ∧ set' = {| set_options := set_options set; set_anchor := set_anchor set;
                set_patterns := set_patterns set ++ regexes |}.
Proof.
  induction regexes as [|p rest IH]; intros set set'; cbn.
  - rewrite app_nil_r. split.
    + intros [= <-]. split; [constructor|by destruct set].
    + intros [_ ->]. by destruct set.
  - unfold RE2_Set_Add. destruct (RE2_parse_error _ p) eqn:E.
    + split; [done|]. intros [H _]. inversion H; congruence.
    + rewrite IH. cbn. rewrite <- app_assoc. cbn. split.
      * intros [H ->]. split; [by constructor|done].
      * intros [H ->]. by inversion H; subst.
Qed.

Lemma add_regexes_first_error failed good p rest err : ∀ set,
  Forall (fun pattern => RE2_parse_error (set_options set) pattern = None) good →
  RE2_parse_error (set_options set) p = Some err →
  add_regexes failed (good ++ p :: rest) set = Throws (failed p err).
Proof.
  induction good as [|g good IH]; intros set Hgood Hp; cbn.
  - unfold RE2_Set_Add. by rewrite Hp.
  - inversion Hgood as [|?? Hg Hgood']; subst.
    unfold RE2_Set_Add. rewrite Hg. by apply IH.
Qed.

Lemma build_regex_set_Returns o add_failed compile_failed regexes r :
  build_regex_set o add_failed compile_failed regexes = Returns r
  ↔ regexes_compile o regexes ∧ r = regex_set_of o regexes.
Proof.
  unfold regexes_compile. destruct regexes as [|p rest].
  - cbn. split.
    + intros [= <-]. by split_and!; [constructor|..].
    + by intros [_ ->].
  - unfold build_regex_set, regex_set_of.
    destruct (add_regexes _ _ _) as [set|e] eqn:E; cbn.
    + apply add_regexes_Returns in E as [Hall ->]. cbn in *.
      destruct (RE2_Set_Compile _) eqn:Ec; cbn.
      * split; [intros [= <-]; by split_and!|by intros [_ ->]].
      * split; [done|]. intros [[_ Hc] _]. specialize (Hc ltac:(done)).
        cbn in Hc. congruence.
    + split; [done|]. intros [[Hall _] _].
      assert (add_regexes add_failed (p :: rest) (RE2_Set_new o ANCHOR_BOTH)
              = Returns {| set_options := o; set_anchor := ANCHOR_BOTH;
                           set_patterns := [] ++ p :: rest |}) as E'
        by by apply add_regexes_Returns.
      by rewrite E' in E.
Qed.

Lemma build_regex_set_compiles o add_failed compile_failed regexes :
  regexes_compile o regexes →
  build_regex_set o add_failed compile_failed regexes
  = Returns (regex_set_of o regexes).
Proof. intros H. by apply build_regex_set_Returns. Qed.

Lemma build_regex_set_first_error o add_failed compile_failed good p rest err :
  Forall (fun pattern => RE2_parse_error o pattern = None) good →
  RE2_parse_error o p = Some err →
  build_regex_set o add_failed compile_failed (good ++ p :: rest)
  = Throws (add_failed p err).
Proof.
  intros Hgood Hp. unfold build_regex_set.
  rewrite (add_regexes_first_error _ good p rest err) by done.
  by destruct good.
Qed.

Lemma addAreaRegex_Returns self id nrs irs self' :
  addAreaRegex self id nrs irs = Returns self'
  ↔ (nrs ≠ [] ∨ irs ≠ [])
    ∧ regexes_compile area_regex_options nrs
    ∧ regexes_compile area_regex_options irs
    ∧ self' = with_areaConfigs
                (match areaConfigs_ self !! id with
                 | Some _ => areaConfigs_ self
                 | None =>
                     <[id := {| areaId := id;
                                neighborRegexList :=
                                  regex_set_of area_regex_options nrs;
                                interfaceRegexList :=
                                  regex_set_of area_regex_options irs |}]>
                       (areaConfigs_ self)
                 end) self.
Proof. forget_parameters.
  unfold addAreaRegex.
  destruct (bool_decide (nrs = []) && bool_decide (irs = [])) eqn:Enone; cbn.
  - split; [done|]. intros [[H|H] _]; revert Enone; Zbool.
  - fold area_regex_options.
    destruct (build_regex_set _ _ _ nrs) as [rn|] eqn:En; cbn.
    + apply build_regex_set_Returns in En as [Hn ->].
      destruct (build_regex_set _ _ _ irs) as [ri|] eqn:Ei; cbn.
      * apply build_regex_set_Returns in Ei as [Hi ->]. split.
        -- intros [= <-]. split_and!; [|done..].
           revert Enone. rewrite andb_false_iff, !bool_decide_eq_false. tauto.
        -- by intros (_ & _ & _ & ->).
      * split; [done|]. intros (_ & _ & Hi & _).
        assert (build_regex_set area_regex_options
                  (fun regexStr regexErr =>
                     invalid_argument ("Failed to add interface regex: "
                        +:+ regexStr +:+ " for area: " +:+ id
                        +:+ ". Error: " +:+ regexErr))
                  (invalid_argument "Interface regex compilation failed") irs
                = Returns (regex_set_of area_regex_options irs)) as E
          by by apply build_regex_set_Returns.
        by rewrite E in Ei.
    + split; [done|]. intros (_ & Hn & _).
      assert (build_regex_set area_regex_options
                (fun regexStr regexErr =>
                   invalid_argument ("Failed to add neighbor regex: "
                      +:+ regexStr +:+ " for area: " +:+ id
                      +:+ ". Error: " +:+ regexErr))
                (invalid_argument "Neighbor regex compilation failed") nrs
              = Returns (regex_set_of area_regex_options nrs)) as E
        by by apply build_regex_set_Returns.
      by rewrite E in En.
Qed.

(** The state the second loop of [populateAreaConfig] reaches: every area it
    went over is one [addAreaRegex] takes; only the area map has changed, and
    only under the ids of those areas; and when those ids are pairwise
    different and were not in the map, each holds the entry of its area. *)
Lemma for_each_addAreaRegex_Returns l : ∀ s s',
  for_each
    (fun self areaConfig =>
       addAreaRegex self (area_id areaConfig) (neighbor_regexes areaConfig)
         (interface_regexes areaConfig)) l s = Returns s' →
  Forall area_compiles l
  ∧ s' = with_areaConfigs (areaConfigs_ s') s
  ∧ (∀ k, k ∉ area_id <$> l → areaConfigs_ s' !! k = areaConfigs_ s !! k)
  ∧ (NoDup (area_id <$> l) →
     (∀ a, a ∈ l → areaConfigs_ s !! area_id a = None) →
     ∀ a, a ∈ l → areaConfigs_ s' !! area_id a = Some (area_entry a)).
Proof.
  induction l as [|x rest IH]; intros s s'; cbn.
  - intros [= <-]. split_and!; [constructor|by destruct s|done|].
    by intros _ _ a ?%elem_of_nil.
  - destruct (addAreaRegex s _ _ _) as [s1|] eqn:E; cbn; [|done].
    apply addAreaRegex_Returns in E as (Hany & Hn & Hi & Hs1).
    intros (Hall & Hshape & Hother & Hlookup)%IH.
    assert (∀ k, k ≠ area_id x → areaConfigs_ s1 !! k = areaConfigs_ s !! k)
      as Hs1other.
    { intros k Hk. rewrite Hs1. cbn.
      destruct (areaConfigs_ s !! area_id x); [done|].
      by rewrite lookup_insert_ne. }
    split_and!.
    + by constructor.
    + rewrite Hshape, Hs1. by destruct s.
    + intros k Hk. rewrite not_elem_of_cons in Hk. destruct Hk as [Hkx Hk].
      rewrite Hother by done. by apply Hs1other.
    + intros Hnd Hfresh a Ha. apply NoDup_cons in Hnd as [Hx Hnd'].
      apply elem_of_cons in Ha as [->|Ha].
      * rewrite Hother by done. rewrite Hs1. cbn.
        rewrite (Hfresh x) by left. by rewrite lookup_insert_eq.
      * apply Hlookup; [done| |done].
        intros b Hb. rewrite Hs1other; [apply Hfresh; by right|].
        intros Heq. apply Hx. rewrite <- Heq.
        by apply list_elem_of_fmap_2.
Qed.

Lemma for_each_addAreaRegex_compiles l : ∀ s,
  Forall area_compiles l →
  returned
    (for_each
       (fun self areaConfig =>
          addAreaRegex self (area_id areaConfig) (neighbor_regexes areaConfig)
            (interface_regexes areaConfig)) l s) = true.
Proof.
  induction l as [|x rest IH]; intros s Hall; cbn; [done|].
  inversion Hall as [|?? (Hany & Hn & Hi) Hall']; subst.
  destruct (addAreaRegex s _ _ _) as [s1|] eqn:E; cbn; [by apply IH|].
  assert (∃ s1, addAreaRegex s (area_id x) (neighbor_regexes x)
                  (interface_regexes x) = Returns s1) as [s1 E1]
    by (eexists; by apply addAreaRegex_Returns).
  by rewrite E1 in E.
Qed.

Lemma for_each_emplace_areaId_NoDup l : ∀ s,
  NoDup (area_id <$> l) →
  (∀ x, x ∈ area_id <$> l → x ∉ areaIds_ s) →
  returned (for_each emplace_areaId l s) = true.
Proof. forget_parameters.
  induction l as [|a rest IH]; intros s Hnd Hfresh; cbn; [done|].
  apply NoDup_cons in Hnd as [Ha Hnd].
  destruct (emplace_areaId s a) as [s1|] eqn:E;
    unfold emplace_areaId in E;
    rewrite bool_decide_false in E
      by (apply Hfresh, elem_of_cons; by left); [|done].
  injection E as <-. cbn.
  apply IH; [done|]. intros x Hx. cbn.
  rewrite elem_of_union, elem_of_singleton. intros [->|Hin]; [done|].
  apply (Hfresh x); [|done]. apply elem_of_cons. by right.
Qed.

(** What [populateAreaConfig] makes of a document that declares areas. *)
Lemma populateAreaConfig_declared doc :
  areas doc ≠ [] →
  populateAreaConfig (Config_init doc)
  = (self ← for_each emplace_areaId (areas doc) (Config_init doc);
     for_each
       (fun self areaConfig =>
          addAreaRegex self (area_id areaConfig)
            (neighbor_regexes areaConfig) (interface_regexes areaConfig))
       (areas doc) self).
Proof.
  intros Hne. unfold populateAreaConfig. cbn.
  rewrite bool_decide_false by done.
  destruct (for_each emplace_areaId _ _) as [s0|] eqn:E; cbn; [|done].
  by apply for_each_emplace_areaId_Returns in E as (_ & _ & _ & ->).
Qed.

(** When [populateAreaConfig] returns for a document that declares areas,
    the ids of the areas are pairwise different and every area has a pattern
    and lists RE2 takes; the set of area ids and the keys of the area map are
    exactly the declared ids; under its id each area has its entry; and
    nothing else in the object has changed. *)
Lemma populateAreaConfig_Returns_declared doc s1 :
  areas doc ≠ [] →
  populateAreaConfig (Config_init doc) = Returns s1 →
  NoDup (area_id <$> areas doc)
  ∧ Forall area_compiles (areas doc)
  ∧ areaIds_ s1 = list_to_set (area_id <$> areas doc)
  ∧ dom (areaConfigs_ s1) = list_to_set (area_id <$> areas doc)
  ∧ (∀ a, a ∈ areas doc → areaConfigs_ s1 !! area_id a = Some (area_entry a))
  ∧ s1 = with_areaConfigs (areaConfigs_ s1)
           (with_areaIds (areaIds_ s1) (Config_init doc)).
Proof.
  intros Hne. rewrite populateAreaConfig_declared by done.
  destruct (for_each emplace_areaId _ _) as [s0|] eqn:E0; cbn; [|done].
  apply for_each_emplace_areaId_Returns in E0 as (Hnd & _ & Hids & Hs0).
  cbn in Hids. rewrite (right_id_L ∅ (∪)) in Hids.
  intros (Hall & Hshape & Hother & Hlookup)%for_each_addAreaRegex_Returns.
  assert (areaConfigs_ s0 = ∅) as Hempty by by rewrite Hs0.
  assert (areaIds_ s1 = areaIds_ s0) as Hids1 by by rewrite Hshape.
  assert (∀ a, a ∈ areas doc →
            areaConfigs_ s1 !! area_id a = Some (area_entry a)) as Hentries.
  { apply Hlookup; [done|]. intros a _. by rewrite Hempty. }
  split_and!; [done|done|congruence| |done|].
  - apply set_eq. intros k. rewrite elem_of_dom, elem_of_list_to_set. split.
    + intros Hsome. destruct (decide (k ∈ area_id <$> areas doc)); [done|].
      rewrite Hother, Hempty in Hsome by done. by destruct Hsome.
    + intros (a & -> & Ha)%list_elem_of_fmap. by rewrite Hentries.
  - rewrite Hshape at 1. rewrite Hs0, Hids1. by destruct s0.
Qed.

(** X1.  [populateAreaConfig] returns exactly when the declared area ids are
    pairwise different and every declared area has a pattern and lists RE2
    takes; a document with no area always passes. *)
Theorem populateAreaConfig_returned_iff doc :
  returned (populateAreaConfig (Config_init doc)) = true
  ↔ NoDup (area_id <$> areas doc) ∧ Forall area_compiles (areas doc).
Proof.
  destruct (decide (areas doc = [])) as [Hnil|Hne].
  - rewrite populateAreaConfig_no_areas by done. rewrite Hnil. cbn.
    split; [|done]. intros _. split; constructor.
  - rewrite populateAreaConfig_declared by done. split.
    + destruct (for_each emplace_areaId _ _) as [s0|] eqn:E0; cbn; [|done].
      apply for_each_emplace_areaId_Returns in E0 as (Hnd & _).
      destruct (for_each _ _ s0) as [s1|] eqn:E1; [|done].
      by apply for_each_addAreaRegex_Returns in E1 as (Hall & _).
    + intros [Hnd Hall].
      pose proof (for_each_emplace_areaId_NoDup (areas doc) (Config_init doc)
                    Hnd) as H0.
      destruct (for_each emplace_areaId _ _) as [s0|]; cbn.
      * by apply for_each_addAreaRegex_compiles.
      * cbn in H0. apply H0. intros x _. cbn. set_solver.
Qed.

Lemma for_each_Returns_each {A S} (body : S → A → Outcome S) l : ∀ s s',
  for_each body l s = Returns s' →
  ∀ x, x ∈ l → ∃ sx, returned (body sx x) = true.
Proof.
  induction l as [|y rest IH]; intros s s'; cbn.
  - by intros _ x ?%elem_of_nil.
  - destruct (body s y) as [s1|] eqn:E; cbn; [|done].
    intros Hrest x [->|Hx]%elem_of_cons.
    + exists s. by rewrite E.
    + by eapply IH.
Qed.

(** X2.  A document with an area whose neighbor and interface pattern lists
    are both empty is never constructed: for that area [addAreaRegex] throws
    its "at least one" error in every state, so populating the area
    configuration throws, whatever else the document holds. *)
Theorem area_without_pattern_rejected doc area :
  area ∈ areas doc →
  neighbor_regexes area = [] → interface_regexes area = [] →
  (∀ self,
     addAreaRegex self (area_id area) (neighbor_regexes area)
       (interface_regexes area)
     = Throws (invalid_argument
                 "Invalid config. At least one non-empty regexes for neighbor or interface"))
  ∧ thrown (populateAreaConfig (Config_init doc)) = true
  ∧ thrown (Config_new doc) = true.
Proof.
  intros Hin Hn Hi.
  assert (∀ self,
     addAreaRegex self (area_id area) (neighbor_regexes area)
       (interface_regexes area)
     = Throws (invalid_argument
                 "Invalid config. At least one non-empty regexes for neighbor or interface"))
    as Hthrows.
  { intros self. unfold addAreaRegex. by rewrite Hn, Hi. }
  assert (thrown (populateAreaConfig (Config_init doc)) = true) as Hpop.
  { assert (areas doc ≠ []) as Hne by (intros E; rewrite E in Hin;
                                        by apply elem_of_nil in Hin).
    rewrite populateAreaConfig_declared by done.
    destruct (for_each emplace_areaId _ _) as [s0|]; cbn; [|done].
    destruct (for_each _ _ s0) as [s1|] eqn:E1; [|done].
    eapply for_each_Returns_each in E1 as [sx Hsx]; [|exact Hin].
    cbn in Hsx. by rewrite Hthrows in Hsx. }
  split_and!; [done..|].
  unfold Config_new, populateInternalDb.
  by destruct (populateAreaConfig _).
Qed.

(** X3.  The first neighbor pattern RE2 cannot parse makes [addAreaRegex]
    throw an error that names the pattern, the area and RE2's error text;
    when RE2 takes the neighbor list, the first interface pattern it cannot
    parse does the same with the interface wording.  Neighbor patterns are
    looked at before interface patterns. *)
Theorem addAreaRegex_first_malformed_pattern self id good p rest err others :
  Forall (fun pattern => RE2_parse_error area_regex_options pattern = None)
    good →
  RE2_parse_error area_regex_options p = Some err →
  addAreaRegex self id (good ++ p :: rest) others
  = Throws (invalid_argument
              ("Failed to add neighbor regex: " +:+ p +:+ " for area: "
               +:+ id +:+ ". Error: " +:+ err))
  ∧ (regexes_compile area_regex_options others →
     addAreaRegex self id others (good ++ p :: rest)
     = Throws (invalid_argument
                 ("Failed to add interface regex: " +:+ p +:+ " for area: "
                  +:+ id +:+ ". Error: " +:+ err))).
Proof.
  intros Hgood Hp. split.
  - unfold addAreaRegex.
    rewrite then_throw_if_false
      by (apply andb_false_iff; left; apply bool_decide_eq_false;
          by destruct good).
    fold area_regex_options.
    by rewrite (build_regex_set_first_error _ _ _ good p rest err).
  - intros Hothers. unfold addAreaRegex.
    rewrite then_throw_if_false
      by (apply andb_false_iff; right; apply bool_decide_eq_false;
          by destruct good).
    fold area_regex_options.
    assert (build_regex_set area_regex_options
              (fun regexStr regexErr =>
                 invalid_argument ("Failed to add neighbor regex: "
                    +:+ regexStr +:+ " for area: " +:+ id
                    +:+ ". Error: " +:+ regexErr))
              (invalid_argument "Neighbor regex compilation failed") others
            = Returns (regex_set_of area_regex_options others)) as ->
      by by apply build_regex_set_Returns.
    cbn. by rewrite (build_regex_set_first_error _ _ _ good p rest err).
Qed.

(* ===================================================================== *)
(** ** The checks one by one *)
(* ===================================================================== *)

Lemma then_throw_if_Returns c e (k : Outcome unit) :
  (throw_if c e;; k) = Returns tt ↔ c = false ∧ k = Returns tt.
Proof. forget_parameters. destruct c; cbn; naive_solver. Qed.

Lemma throw_if_Returns c e : throw_if c e = Returns tt ↔ c = false.
Proof. forget_parameters. destruct c; cbn; naive_solver. Qed.

Lemma then_throw_if_Throws {B} c e (k : Outcome B) e' :
  (throw_if c e;; k) = Throws e'
  ↔ (c = true ∧ e = e') ∨ (c = false ∧ k = Throws e').
Proof. forget_parameters. destruct c; cbn; naive_solver. Qed.

Lemma throw_if_Throws c e e' : throw_if c e = Throws e' ↔ c = true ∧ e = e'.
Proof. forget_parameters. destruct c; cbn; naive_solver. Qed.

(** X4.  The Spark checks pass exactly when the port is from 1 to 65535,
    hello, fast-init, keepalive and graceful restart are above zero, fast-init
    is at most the 32-bit product of 1000 and hello, keepalive is at most
    hold, graceful restart is at least the 32-bit product of 3 and keepalive,
    the step detector's thresholds are not negative with the lower below the
    upper, and its window sizes are not negative with the fast one at most
    the slow one.  The 32-bit products are those of the integers when hello
    is at most 2147483 and keepalive at most 715827882; beyond, they wrap:
    with a hello of 2147484 the checks never pass, and with a keepalive of
    715827883 the product is negative, below every graceful restart above
    zero. *)
Theorem check_spark_Returns_iff sparkConfig :
  (check_spark sparkConfig = Returns tt
   ↔ 1 ≤ neighbor_discovery_port sparkConfig ≤ 65535
     ∧ 0 < hello_time_s sparkConfig
     ∧ 0 < fastinit_hello_time_ms sparkConfig
         ≤ int32_mul 1000 (hello_time_s sparkConfig)
     ∧ 0 < keepalive_time_s sparkConfig ≤ hold_time_s sparkConfig
     ∧ 0 < graceful_restart_time_s sparkConfig
     ∧ int32_mul 3 (keepalive_time_s sparkConfig)
         ≤ graceful_restart_time_s sparkConfig
     ∧ 0 ≤ lower_threshold (step_detector_conf sparkConfig)
         < upper_threshold (step_detector_conf sparkConfig)
     ∧ 0 ≤ fast_window_size (step_detector_conf sparkConfig)
         ≤ slow_window_size (step_detector_conf sparkConfig))
  ∧ (0 < hello_time_s sparkConfig ≤ 2147483 →
     int32_mul 1000 (hello_time_s sparkConfig)
     = 1000 * hello_time_s sparkConfig)
  ∧ (0 < keepalive_time_s sparkConfig ≤ 715827882 →
     int32_mul 3 (keepalive_time_s sparkConfig)
     = 3 * keepalive_time_s sparkConfig)
  ∧ (hello_time_s sparkConfig = 2147484 →
     check_spark sparkConfig ≠ Returns tt)
  ∧ (keepalive_time_s sparkConfig = 715827883 →
     int32_mul 3 (keepalive_time_s sparkConfig) < 0).
Proof.
  split_and!.
  - unfold check_spark.
    rewrite !then_throw_if_Returns, throw_if_Returns.
    rewrite !orb_false_iff, !Z.leb_gt, !Z.ltb_ge. lia.
  - intros H. apply int32_mul_small. lia.
  - intros H. apply int32_mul_small. lia.
  - intros Hhello. unfold check_spark.
    rewrite !then_throw_if_Returns, throw_if_Returns.
    rewrite !orb_false_iff, !Z.leb_gt, !Z.ltb_ge. rewrite Hhello.
    change (int32_mul 1000 2147484) with (-2147483296). lia.
  - intros ->. by change (int32_mul 3 715827883) with (-2147483647).
Qed.

(** X5.  Two of the Spark checks can never throw.  The hold-time check
    comes after the checks that keepalive is above zero and at most hold, so
    "hold_time_s should be > 0" is never thrown; and the step detector's
    thresholds are checked a second time with the same condition, so the
    message of the second check is never thrown. *)
Theorem check_spark_dead_checks sparkConfig :
  check_spark sparkConfig
  ≠ Throws (out_of_range
              ("hold_time_s (" +:+ pretty (hold_time_s sparkConfig)
               +:+ ") should be > 0"))
  ∧ check_spark sparkConfig
    ≠ Throws (invalid_argument
                ("step_detector_conf.lower_threshold ("
                 +:+ pretty (lower_threshold (step_detector_conf sparkConfig))
                 +:+ ") should be < step_detector_conf.upper_threshold ("
                 +:+ pretty (upper_threshold (step_detector_conf sparkConfig))
                 +:+ ")")).
Proof.
  split; intros H; unfold check_spark in H.
  - apply then_throw_if_Throws in H as [[_ He]|[_ H]];
      [cbn -[pretty] in He; simplify_eq|].
    apply then_throw_if_Throws in H as [[_ He]|[_ H]];
      [cbn -[pretty] in He; simplify_eq|].
    apply then_throw_if_Throws in H as [[_ He]|[_ H]];
      [cbn -[pretty] in He; simplify_eq|].
    apply then_throw_if_Throws in H as [[_ He]|[_ H]];
      [cbn -[pretty] in He; simplify_eq|].
    apply then_throw_if_Throws in H as [[_ He]|[Hkeepalive H]];
      [cbn -[pretty] in He; simplify_eq|].
    apply then_throw_if_Throws in H as [[_ He]|[Hhold H]];
      [cbn -[pretty] in He; simplify_eq|].
    apply then_throw_if_Throws in H as [[Hc _]|[_ H]];
      [revert Hkeepalive Hhold Hc; rewrite ?Z.leb_gt, ?Z.ltb_ge, ?Z.leb_le;
       lia|].
    apply then_throw_if_Throws in H as [[_ He]|[_ H]];
      [cbn -[pretty] in He; simplify_eq|].
    apply then_throw_if_Throws in H as [[_ He]|[_ H]];
      [cbn -[pretty] in He; simplify_eq|].
    apply then_throw_if_Throws in H as [[_ He]|[_ H]];
      [cbn -[pretty] in He; simplify_eq|].
    apply then_throw_if_Throws in H as [[_ He]|[_ H]];
      [cbn -[pretty] in He; simplify_eq|].
    apply throw_if_Throws in H as [_ He]. cbn -[pretty] in He. simplify_eq.
  - do 9 (apply then_throw_if_Throws in H as [[_ He]|[_ H]];
            [cbn -[pretty] in He; simplify_eq|]).
    apply then_throw_if_Throws in H as [[_ He]|[Hfirst H]].
    { cbn -[pretty] in He. simplify_eq. }
    apply then_throw_if_Throws in H as [[_ He]|[_ H]];
      [cbn -[pretty] in He; simplify_eq|].
    apply throw_if_Throws in H as [Hsecond _]. congruence.
Qed.

Lemma check_prefix_forwarding_Returns self :
  check_prefix_forwarding self = Returns tt
  ↔ enumName_PrefixForwardingType (prefix_forwarding_type (config_ self))
      ≠ None
    ∧ enumName_PrefixForwardingAlgorithm
        (prefix_forwarding_algorithm (config_ self)) ≠ None
    ∧ (prefix_forwarding_algorithm (config_ self) = KSP2_ED_ECMP →
       prefix_forwarding_type (config_ self) = SR_MPLS).
Proof. forget_parameters.
  unfold check_prefix_forwarding.
  rewrite then_throw_if_Returns, throw_if_Returns.
  destruct (prefix_forwarding_type _), (prefix_forwarding_algorithm _); cbn;
    naive_solver.
Qed.

Lemma check_fib_Returns self :
  check_fib self = Returns tt
  ↔ (isOrderedFibProgrammingEnabled self = true →
     (size (areaIds_ self) ≤ 1)%nat).
Proof. forget_parameters.
  unfold check_fib. rewrite throw_if_Returns, andb_false_iff, Nat.ltb_ge.
  destruct (isOrderedFibProgrammingEnabled self); naive_solver.
Qed.

Lemma check_kvstore_Returns kvConf :
  check_kvstore kvConf = Returns tt
  ↔ (∀ floodRate, flood_rate kvConf = Some floodRate →
       0 < flood_msg_per_sec floodRate ∧ 0 < flood_msg_burst_size floodRate).
Proof. forget_parameters.
  unfold check_kvstore. destruct (flood_rate kvConf) as [floodRate|].
  - rewrite then_throw_if_Returns, throw_if_Returns, !Z.leb_gt. split.
    + by intros H ? [= <-].
    + intros H. by apply H.
  - split; [|done]. by intros _ ? [=].
Qed.

Lemma check_monitor_Returns monitorConfig :
  check_monitor monitorConfig = Returns tt
  ↔ 0 ≤ max_event_log monitorConfig.
Proof.
  unfold check_monitor. by rewrite throw_if_Returns, Z.ltb_ge.
Qed.

Lemma check_watchdog_Returns self :
  check_watchdog self = Returns tt
  ↔ (isWatchdogEnabled self = true → watchdog_config (config_ self) ≠ None).
Proof. forget_parameters.
  unfold check_watchdog. rewrite throw_if_Returns.
  destruct (isWatchdogEnabled self), (watchdog_config _); cbn; naive_solver.
Qed.

Lemma populate_bgp_peering_Returns self c :
  populate_bgp_peering self = Returns c
  ↔ (isBgpPeeringEnabled self = true → bgp_config (config_ self) ≠ None)
    ∧ c = (if isBgpPeeringEnabled self
              && is_null (bgp_translation_config (config_ self))
           then map_config
                  (with_bgp_translation_config
                     (Some BgpRouteTranslationConfig_default)) self
           else self).
Proof. forget_parameters.
  unfold populate_bgp_peering.
  destruct (isBgpPeeringEnabled self), (bgp_config _),
    (bgp_translation_config _); cbn;
    (split; [first [done | by intros [= <-]]
            |first [by intros [_ ->] | intros [H _]; by destruct H]]).
Qed.

(** Every part of a construction that returns. *)
Lemma Config_new_stages doc c :
  Config_new doc = Returns c
  ↔ ∃ s1 s2 s3,
      populateAreaConfig (Config_init doc) = Returns s1
      ∧ check_prefix_forwarding s1 = Returns tt
      ∧ check_fib s1 = Returns tt
      ∧ check_kvstore (kvstore_config (config_ s1)) = Returns tt
      ∧ check_spark (spark_config (config_ s1)) = Returns tt
      ∧ check_monitor (monitor_config (config_ s1)) = Returns tt
      ∧ check_linkflap_backoff (link_monitor_config (config_ s1)) = Returns tt
      ∧ populate_interface_regexes (link_monitor_config (config_ s1)) s1
        = Returns s2
      ∧ populate_prefix_allocation s2 = Returns s3
      ∧ populate_bgp_peering s3 = Returns c
      ∧ check_watchdog c = Returns tt.
Proof.
  unfold Config_new, populateInternalDb. split.
  - destruct (populateAreaConfig _) as [s1|] eqn:E1; cbn; [|done].
    destruct (check_prefix_forwarding s1) as [[]|] eqn:E2; cbn; [|done].
    destruct (check_fib s1) as [[]|] eqn:E3; cbn; [|done].
    destruct (check_kvstore _) as [[]|] eqn:E4; cbn; [|done].
    destruct (check_spark _) as [[]|] eqn:E5; cbn; [|done].
    destruct (check_monitor _) as [[]|] eqn:E6; cbn; [|done].
    destruct (check_linkflap_backoff _) as [[]|] eqn:E7; cbn; [|done].
    destruct (populate_interface_regexes _ s1) as [s2|] eqn:E8; cbn; [|done].
    destruct (populate_prefix_allocation s2) as [s3|] eqn:E9; cbn; [|done].
    destruct (populate_bgp_peering s3) as [s4|] eqn:E10; cbn; [|done].
    destruct (check_watchdog s4) as [[]|] eqn:E11; cbn; [|done].
    intros [= <-]. by exists s1, s2, s3.
  - intros (s1 & s2 & s3 & E1 & E2 & E3 & E4 & E5 & E6 & E7 & E8 & E9 & E10
            & E11).
    rewrite E1. cbn. rewrite E2. cbn. rewrite E3. cbn. rewrite E4. cbn.
    rewrite E5. cbn. rewrite E6. cbn. rewrite E7. cbn. rewrite E8. cbn.
    rewrite E9. cbn. rewrite E10. cbn. by rewrite E11.
Qed.

(** The three interface pattern lists of the link monitor are compiled one
    by one, each on its own: the part returns exactly when RE2 takes all
    three lists, under the default, case-sensitive options, and it leaves
    their sets in the object. *)
Lemma populate_interface_regexes_Returns_iff lmConf self self' :
  populate_interface_regexes lmConf self = Returns self'
  ↔ regexes_compile RE2_Options_default (include_interface_regexes lmConf)
    ∧ regexes_compile RE2_Options_default (exclude_interface_regexes lmConf)
    ∧ regexes_compile RE2_Options_default
        (redistribute_interface_regexes lmConf)
    ∧ self' = with_itfRegexes
                (regex_set_of RE2_Options_default
                   (include_interface_regexes lmConf))
                (regex_set_of RE2_Options_default
                   (exclude_interface_regexes lmConf))
                (regex_set_of RE2_Options_default
                   (redistribute_interface_regexes lmConf)) self.
Proof.
  unfold populate_interface_regexes.
  destruct (build_regex_set _ _ _ (include_interface_regexes _))
    as [inc|] eqn:Einc; cbn.
  2: { split; [done|]. intros (H & _).
       by rewrite build_regex_set_compiles in Einc. }
  apply build_regex_set_Returns in Einc as [Hinc ->].
  destruct (build_regex_set _ _ _ (exclude_interface_regexes _))
    as [exc|] eqn:Eexc; cbn.
  2: { split; [done|]. intros (_ & H & _).
       by rewrite build_regex_set_compiles in Eexc. }
  apply build_regex_set_Returns in Eexc as [Hexc ->].
  destruct (build_regex_set _ _ _ (redistribute_interface_regexes _))
    as [red|] eqn:Ered; cbn.
  2: { split; [done|]. intros (_ & _ & H & _).
       by rewrite build_regex_set_compiles in Ered. }
  apply build_regex_set_Returns in Ered as [Hred ->].
  split; [by intros [= <-]|by intros (_ & _ & _ & ->)].
Qed.

Lemma populate_prefix_allocation_no_config self :
  isPrefixAllocationEnabled self = true →
  prefix_allocation_config (config_ self) = None →
  thrown (populate_prefix_allocation self) = true.
Proof.
  intros Hen Hpa. unfold populate_prefix_allocation. rewrite Hen, Hpa.
  by destruct (throw_if _ _).
Qed.

(** When prefix allocation is enabled and its sub-document is there, the
    part returns exactly when there is at most one area id and the
    sub-document fits its mode. *)
Lemma populate_prefix_allocation_Returns self paConf s' :
  isPrefixAllocationEnabled self = true →
  prefix_allocation_config (config_ self) = Some paConf →
  populate_prefix_allocation self = Returns s'
  ↔ (size (areaIds_ self) ≤ 1)%nat
    ∧ match prefix_allocation_mode paConf with
      | DYNAMIC_ROOT_NODE =>
          ∃ params,
            createPrefixAllocationParams
              (default EmptyString (seed_prefix paConf))
              (to_uint8 (default 0 (allocate_prefix_len paConf)))
            = Returns params
            ∧ (isV4 params.1.1 = true → isV4Enabled self = true)
            ∧ s' = with_prefixAllocationParams (Some params) self
      | DYNAMIC_LEAF_NODE | STATIC =>
          default EmptyString (seed_prefix paConf) = EmptyString
          ∧ default 0 (allocate_prefix_len paConf) ≤ 0
          ∧ s' = self
      | PrefixAllocationMode_unnamed _ => False
      end.
Proof.
  intros Hen Hpa. unfold populate_prefix_allocation. rewrite Hen, Hpa.
  destruct (1 <? size (areaIds_ self))%nat eqn:Esize; cbn.
  { apply Nat.ltb_lt in Esize. split; [done|]. intros [? _]. lia. }
  apply Nat.ltb_ge in Esize.
  destruct (prefix_allocation_mode paConf) eqn:Emode; cbn.
  - destruct (negb _ || _) eqn:E; cbn.
    + split; [done|]. intros (_ & Hseed & Hlen & _). revert E.
      rewrite orb_true_iff, negb_true_iff, bool_decide_eq_false, Z.ltb_lt.
      intros [?|?]; [done|lia].
    + split.
      * intros [= <-]. revert E.
        rewrite orb_false_iff, negb_false_iff, bool_decide_eq_true, Z.ltb_ge.
        by intros [? ?].
      * by intros (_ & _ & _ & ->).
  - destruct (createPrefixAllocationParams _ _) as [params|] eqn:Ep; cbn.
    + destruct (isV4 params.1.1 && negb (isV4Enabled _)) eqn:E; cbn.
      * split; [done|]. intros (_ & ? & [= <-] & Hv4 & _). revert E.
        rewrite andb_true_iff, negb_true_iff. intros [E1 E2].
        unfold isV4Enabled in *. cbn in E2. rewrite Hv4 in E2 by done. done.
      * split.
        -- intros [= <-]. split; [done|]. exists params.
           split_and!; [done| |done].
           revert E. rewrite andb_false_iff, negb_false_iff.
           unfold isV4Enabled. cbn. intros [E|E] Hv4; congruence.
        -- by intros (_ & ? & [= <-] & _ & ->).
    + split; [done|]. by intros (_ & ? & [=] & _).
  - destruct (negb _ || _) eqn:E; cbn.
    + split; [done|]. intros (_ & Hseed & Hlen & _). revert E.
      rewrite orb_true_iff, negb_true_iff, bool_decide_eq_false, Z.ltb_lt.
      intros [?|?]; [done|lia].
    + split.
      * intros [= <-]. revert E.
        rewrite orb_false_iff, negb_false_iff, bool_decide_eq_true, Z.ltb_ge.
        by intros [? ?].
      * by intros (_ & _ & _ & ->).
  - split; [done|]. by intros [_ ?].
Qed.

(* ===================================================================== *)
(** ** The object that is constructed *)
(* ===================================================================== *)

(** What [populateAreaConfig] leaves in the object, with or without declared
    areas. *)
Lemma populateAreaConfig_Returns_state doc s1 :
  populateAreaConfig (Config_init doc) = Returns s1 →
  NoDup (area_id <$> areas doc)
  ∧ Forall area_compiles (areas doc)
  ∧ areaIds_ s1 = (if bool_decide (areas doc = []) then {[kDefaultArea]}
                   else list_to_set (area_id <$> areas doc))
  ∧ dom (areaConfigs_ s1) = list_to_set (area_id <$> areas doc)
  ∧ (∀ a, a ∈ areas doc → areaConfigs_ s1 !! area_id a = Some (area_entry a))
  ∧ s1 = with_areaConfigs (areaConfigs_ s1)
           (with_areaIds (areaIds_ s1) (Config_init doc)).
Proof.
  destruct (decide (areas doc = [])) as [Hnil|Hne].
  - rewrite populateAreaConfig_no_areas by done. intros [= <-].
    rewrite bool_decide_true by done. rewrite Hnil. cbn.
    split_and!; [constructor|constructor|done|by rewrite dom_empty_L| |done].
    by intros a ?%elem_of_nil.
  - rewrite bool_decide_false by done.
    intros H. apply populateAreaConfig_Returns_declared in H; [|done].
    by destruct H as (? & ? & ? & ? & ? & ?).
Qed.

Lemma populate_prefix_allocation_shape self s' :
  populate_prefix_allocation self = Returns s' →
  s' = with_prefixAllocationParams (prefixAllocationParams_ s') self.
Proof.
  destruct (isPrefixAllocationEnabled self) eqn:Hen.
  - destruct (prefix_allocation_config (config_ self)) as [paConf|] eqn:Hpa.
    + rewrite (populate_prefix_allocation_Returns _ paConf) by done.
      intros [_ H]. destruct (prefix_allocation_mode paConf).
      * destruct H as (_ & _ & ->). by destruct self.
      * by destruct H as (? & _ & _ & ->).
      * destruct H as (_ & _ & ->). by destruct self.
      * done.
    + intros H. pose proof (populate_prefix_allocation_no_config _ Hen Hpa).
      by rewrite H in *.
  - rewrite populate_prefix_allocation_disabled by done.
    intros [= <-]. by destruct self.
Qed.

(** A construction that returns, part by part, with what each part has left
    in the object. *)
Lemma Config_new_Returns_parts doc c :
  Config_new doc = Returns c →
  ∃ s1 s2 s3,
    populateAreaConfig (Config_init doc) = Returns s1
    ∧ s1 = with_areaConfigs (areaConfigs_ s1)
             (with_areaIds (areaIds_ s1) (Config_init doc))
    ∧ check_prefix_forwarding s1 = Returns tt
    ∧ check_fib s1 = Returns tt
    ∧ check_kvstore (kvstore_config doc) = Returns tt
    ∧ check_spark (spark_config doc) = Returns tt
    ∧ check_monitor (monitor_config doc) = Returns tt
    ∧ check_linkflap_backoff (link_monitor_config doc) = Returns tt
    ∧ populate_interface_regexes (link_monitor_config doc) s1 = Returns s2
    ∧ populate_prefix_allocation s2 = Returns s3
    ∧ s3 = with_prefixAllocationParams (prefixAllocationParams_ s3) s2
    ∧ populate_bgp_peering s3 = Returns c
    ∧ check_watchdog c = Returns tt.
Proof.
  intros (s1 & s2 & s3 & E1 & E2 & E3 & E4 & E5 & E6 & E7 & E8 & E9 & E10
          & E11)%Config_new_stages.
  pose proof (populateAreaConfig_Returns_state _ _ E1)
    as (_ & _ & _ & _ & _ & Hs1).
  assert (config_ s1 = doc) as Hc1 by by rewrite Hs1.
  rewrite Hc1 in *.
  exists s1, s2, s3. split_and!; try done.
  by apply populate_prefix_allocation_shape.
Qed.

(** X6.  In the root-node mode, with prefix allocation enabled, at most one
    area id and the sub-document present, the step returns an object exactly
    when [createPrefixAllocationParams] returns parameters for the seed and
    the length narrowed to 8 bits and the seed is not a v4 address with v4
    off; the object returned has these parameters in
    [prefixAllocationParams_] and every other member as before.  A seed that
    is unset or empty, or a length that is unset or a multiple of 256, throws
    "must be filled"; a v4 seed with v4 off throws the v4 error. *)
Theorem populate_prefix_allocation_root_node self paConf :
  isPrefixAllocationEnabled self = true →
  (size (areaIds_ self) ≤ 1)%nat →
  prefix_allocation_config (config_ self) = Some paConf →
  prefix_allocation_mode paConf = DYNAMIC_ROOT_NODE →
  let seedPrefix := default EmptyString (seed_prefix paConf) in
  let allocatePfxLen := to_uint8 (default 0 (allocate_prefix_len paConf)) in
  (∀ self',
     populate_prefix_allocation self = Returns self'
     ↔ ∃ params,
         createPrefixAllocationParams seedPrefix allocatePfxLen
         = Returns params
         ∧ (isV4 params.1.1 = true → isV4Enabled self = true)
         ∧ prefixAllocationParams_ self' = Some params
         ∧ config_ self' = config_ self
         ∧ areaIds_ self' = areaIds_ self
         ∧ areaConfigs_ self' = areaConfigs_ self
         ∧ includeItfRegexes_ self' = includeItfRegexes_ self
         ∧ excludeItfRegexes_ self' = excludeItfRegexes_ self
         ∧ redistributeItfRegexes_ self' = redistributeItfRegexes_ self)
  ∧ (seedPrefix = EmptyString
     ∨ default 0 (allocate_prefix_len paConf) `mod` 256 = 0 →
     populate_prefix_allocation self
     = Throws (invalid_argument
                 "seed_prefix and allocate_prefix_len must be filled."))
  ∧ (∀ params,
       createPrefixAllocationParams seedPrefix allocatePfxLen
       = Returns params →
       isV4 params.1.1 = true → isV4Enabled self = false →
       populate_prefix_allocation self
       = Throws (invalid_argument
                   "v4 seed_prefix detected, but enable_v4 = false")).
Proof.
  intros Hen Hsize Hpa Hmode seedPrefix allocatePfxLen.
  assert (populate_prefix_allocation self
          = (params ← createPrefixAllocationParams seedPrefix allocatePfxLen;
             let self := with_prefixAllocationParams (Some params) self in
             throw_if (isV4 params.1.1 && negb (isV4Enabled self))
               (invalid_argument
                  "v4 seed_prefix detected, but enable_v4 = false");;
             mret self)) as Hrun.
  { unfold populate_prefix_allocation. rewrite Hen, Hpa.
    rewrite then_throw_if_false by (apply Nat.ltb_ge; lia).
    by rewrite Hmode. }
  split_and!.
  - intros self'. rewrite Hrun.
    destruct (createPrefixAllocationParams seedPrefix allocatePfxLen)
      as [params|e]; cbn.
    + change (isV4Enabled (with_prefixAllocationParams (Some params) self))
        with (isV4Enabled self).
      split.
      * destruct (isV4 params.1.1) eqn:Hv4, (isV4Enabled self) eqn:Hv4on;
          cbn; try done; intros [= <-]; exists params;
          split_and!; try done; congruence.
      * intros (params' & [= <-] & Hv4 & Hp & Hc & Hi & Ha & Hinc & Hexc
                & Hred).
        destruct (isV4 params.1.1) eqn:Hv4'; cbn;
          [rewrite Hv4 by done; cbn|];
          (destruct self, self'; cbn in *; by subst).
    + split; [done|]. by intros (params & ? & _).
  - intros Hunset. rewrite Hrun.
    by rewrite createPrefixAllocationParams_unfilled.
  - intros params Hparams Hv4 Hoff. rewrite Hrun, Hparams. cbn.
    change (isV4Enabled (with_prefixAllocationParams (Some params) self))
      with (isV4Enabled self).
    by rewrite Hv4, Hoff.
Qed.

Lemma size_two_elements (X : gset string) x y :
  x ∈ X → y ∈ X → x ≠ y → (2 ≤ size X)%nat.
Proof. forget_parameters.
  intros Hx Hy Hxy.
  assert ({[x; y]} ⊆ X) as Hsub by set_solver.
  apply subseteq_size in Hsub.
  rewrite size_union in Hsub by set_solver.
  by rewrite !size_singleton in Hsub.
Qed.

(** X7.  Ordered FIB programming and prefix allocation take a single area:
    a document that enables either and declares two areas with different ids
    is never constructed. *)
Theorem single_area_features_reject_two_areas doc a b :
  a ∈ areas doc → b ∈ areas doc → area_id a ≠ area_id b →
  enable_ordered_fib_programming doc = Some true
  ∨ enable_prefix_allocation doc = Some true →
  thrown (Config_new doc) = true.
Proof.
  intros Ha Hb Hab Hfeature.
  destruct (Config_new doc) as [c|] eqn:E; [|done]. exfalso.
  apply Config_new_Returns_parts in E
    as (s1 & s2 & s3 & E1 & Hs1 & _ & Efib & _ & _ & _ & _ & E2 & E3 & _).
  apply populateAreaConfig_Returns_state in E1 as (_ & _ & Hids & _).
  rewrite bool_decide_false in Hids
    by (intros Hnil; rewrite Hnil in Ha; by apply elem_of_nil in Ha).
  assert (2 ≤ size (areaIds_ s1))%nat as Hsize.
  { apply (size_two_elements _ (area_id a) (area_id b)); [..|done];
      rewrite Hids, elem_of_list_to_set; by apply list_elem_of_fmap_2. }
  assert (config_ s1 = doc) as Hc1 by by rewrite Hs1.
  destruct Hfeature as [Hfib|Hpa].
  - apply check_fib_Returns in Efib; [lia|].
    unfold isOrderedFibProgrammingEnabled. by rewrite Hc1, Hfib.
  - pose proof (populate_interface_regexes_preserves _ _ _ E2) as [= Hc2 _].
    assert (areaIds_ s2 = areaIds_ s1) as Hids2.
    { unfold populate_interface_regexes in E2.
      destruct (build_regex_set _ _ _ (include_interface_regexes _));
        cbn in E2; [|done].
      destruct (build_regex_set _ _ _ (exclude_interface_regexes _));
        cbn in E2; [|done].
      destruct (build_regex_set _ _ _ (redistribute_interface_regexes _));
        cbn in E2; [|done].
      by injection E2 as <-. }
    assert (isPrefixAllocationEnabled s2 = true) as Hen
      by (unfold isPrefixAllocationEnabled; by rewrite Hc2, Hc1, Hpa).
    destruct (prefix_allocation_config (config_ s2)) as [paConf|] eqn:Hpac.
    + apply (populate_prefix_allocation_Returns _ paConf) in E3 as [? _];
        [|done..]. rewrite Hids2 in *. lia.
    + pose proof (populate_prefix_allocation_no_config _ Hen Hpac) as Hno.
      by rewrite E3 in Hno.
Qed.

(** With peering enabled and no translation sub-document, construction goes
    as for the document with the default translation sub-document written
    out. *)
Lemma Config_new_translation_default doc :
  enable_bgp_peering doc = Some true →
  bgp_translation_config doc = None →
  Config_new doc
  = Config_new (with_bgp_translation_config
                  (Some BgpRouteTranslationConfig_default) doc).
Proof.
  intros Hen Htr.
  set (f := with_bgp_translation_config
              (Some BgpRouteTranslationConfig_default)).
  unfold Config_new, populateInternalDb.
  change (Config_init (f doc)) with (map_config f (Config_init doc)).
  rewrite populateAreaConfig_map_config by done.
  destruct (populateAreaConfig (Config_init doc)) as [s1|] eqn:E1; cbn;
    [|done].
  pose proof (populateAreaConfig_preserves _ _ E1) as [= Hc1 _].
  cbn in Hc1.
  change (check_prefix_forwarding (map_config f s1))
    with (check_prefix_forwarding s1).
  destruct (check_prefix_forwarding s1) as [[]|]; cbn; [|done].
  change (check_fib (map_config f s1)) with (check_fib s1).
  destruct (check_fib s1) as [[]|]; cbn; [|done].
  destruct (check_kvstore _) as [[]|]; cbn; [|done].
  destruct (check_spark _) as [[]|]; cbn; [|done].
  destruct (check_monitor _) as [[]|]; cbn; [|done].
  destruct (check_linkflap_backoff _) as [[]|]; cbn; [|done].
  assert (∀ lmConf s, populate_interface_regexes lmConf (map_config f s)
                      = map_config f <$> populate_interface_regexes lmConf s)
    as Hitf.
  { clear. intros lmConf s. unfold populate_interface_regexes.
    destruct (build_regex_set _ _ _ (include_interface_regexes _)); cbn;
      [|done].
    destruct (build_regex_set _ _ _ (exclude_interface_regexes _)); cbn;
      [|done].
    by destruct (build_regex_set _ _ _ (redistribute_interface_regexes _)). }
  rewrite Hitf.
  destruct (populate_interface_regexes _ s1) as [s2|] eqn:E2; cbn; [|done].
  assert (populate_prefix_allocation (map_config f s2)
          = map_config f <$> populate_prefix_allocation s2) as ->.
  { clear. unfold populate_prefix_allocation.
    change (isPrefixAllocationEnabled (map_config f s2))
      with (isPrefixAllocationEnabled s2).
    destruct (isPrefixAllocationEnabled s2); [|done]. cbn.
    destruct (size (areaIds_ s2)) as [|[|n]]; cbn; [..|done];
      (destruct (prefix_allocation_config _) as [paConf|]; [|done];
       destruct (is_null _); cbn; [done|];
       destruct (prefix_allocation_mode paConf); cbn;
       [by destruct (_ || _)
       |destruct (createPrefixAllocationParams _ _) as [params|]; cbn;
          [|done]; unfold isV4Enabled; cbn; by destruct (_ && _)
       |by destruct (_ || _)
       |done]). }
  destruct (populate_prefix_allocation s2) as [s3|] eqn:E3; cbn; [|done].
  pose proof (populate_interface_regexes_preserves _ _ _ E2) as [= Hc2 _].
  pose proof (populate_prefix_allocation_config _ _ E3) as Hc3.
  assert (config_ s3 = doc) as Hdoc by congruence.
  unfold populate_bgp_peering, isBgpPeeringEnabled. cbn.
  rewrite Hdoc, Hen, Htr. cbn. unfold map_config. rewrite Hdoc.
  by destruct (bgp_config doc).
Qed.

(** X8.  Construction is idempotent on the document it stores.  The stored
    document is the one given, except that with peering enabled and no
    translation sub-document given it has the default one; and constructing
    an object from the stored document returns that very object. *)
Theorem Config_new_idempotent doc c :
  Config_new doc = Returns c →
  (config_ c = doc
   ∨ enable_bgp_peering doc = Some true
     ∧ bgp_translation_config doc = None
     ∧ config_ c = with_bgp_translation_config
                     (Some BgpRouteTranslationConfig_default) doc)
  ∧ Config_new (config_ c) = Returns c.
Proof.
  intros Hnew.
  pose proof Hnew as (s1 & s2 & s3 & _ & Hs1 & _ & _ & _ & _ & _ & _ & E2
                      & _ & Hs3 & Ebgp & _)%Config_new_Returns_parts.
  apply populate_interface_regexes_Returns_iff in E2 as (_ & _ & _ & Hs2).
  assert (config_ s3 = doc) as Hdoc by by rewrite Hs3, Hs2, Hs1.
  apply populate_bgp_peering_Returns in Ebgp as [_ Hc].
  unfold isBgpPeeringEnabled in Hc. rewrite Hdoc in Hc.
  destruct (enable_bgp_peering doc) as [[]|] eqn:Hen; cbn in Hc.
  - destruct (bgp_translation_config doc) eqn:Htr; cbn in Hc.
    + assert (config_ c = doc) as -> by by rewrite Hc. by split; [left|].
    + assert (config_ c = with_bgp_translation_config
                            (Some BgpRouteTranslationConfig_default) doc)
        as -> by (rewrite Hc; cbn; by rewrite Hdoc).
      split; [by right|]. by rewrite <- Config_new_translation_default.
  - assert (config_ c = doc) as -> by by rewrite Hc. by split; [left|].
  - assert (config_ c = doc) as -> by by rewrite Hc. by split; [left|].
Qed.

(** X9.  What every constructed object guarantees about its document: the
    forwarding type and algorithm name enumerators and KSP2_ED_ECMP goes
    with SR_MPLS; a flood rate, when given, has both operands above zero; the
    Spark port is from 1 to 65535, the Spark timings are above zero, fast-init
    is at most the 32-bit product of 1000 and hello, which is 1000 times
    hello for a hello of at most 2147483, keepalive is at most hold, graceful
    restart is at least the 32-bit product of 3 and keepalive, which is 3
    times keepalive for a keepalive of at most 715827882, and the step
    detector's thresholds and windows are ordered; the event log limit and
    both backoffs are not negative and the initial backoff is not above the
    max; and each of watchdog and peering, when enabled, has its
    sub-document, peering also a translation sub-document in the stored
    document. *)
Theorem Config_new_Returns_validated doc c :
  Config_new doc = Returns c →
  (enumName_PrefixForwardingType (prefix_forwarding_type doc) ≠ None
   ∧ enumName_PrefixForwardingAlgorithm (prefix_forwarding_algorithm doc)
       ≠ None
   ∧ (prefix_forwarding_algorithm doc = KSP2_ED_ECMP →
      prefix_forwarding_type doc = SR_MPLS))
  ∧ (∀ floodRate, flood_rate (kvstore_config doc) = Some floodRate →
       0 < flood_msg_per_sec floodRate ∧ 0 < flood_msg_burst_size floodRate)
  ∧ (1 ≤ neighbor_discovery_port (spark_config doc) ≤ 65535
     ∧ 0 < hello_time_s (spark_config doc)
     ∧ 0 < fastinit_hello_time_ms (spark_config doc)
         ≤ int32_mul 1000 (hello_time_s (spark_config doc))
     ∧ (hello_time_s (spark_config doc) ≤ 2147483 →
        fastinit_hello_time_ms (spark_config doc)
        ≤ 1000 * hello_time_s (spark_config doc))
     ∧ 0 < keepalive_time_s (spark_config doc) ≤ hold_time_s (spark_config doc)
     ∧ 0 < graceful_restart_time_s (spark_config doc)
     ∧ int32_mul 3 (keepalive_time_s (spark_config doc))
         ≤ graceful_restart_time_s (spark_config doc)
     ∧ (keepalive_time_s (spark_config doc) ≤ 715827882 →
        3 * keepalive_time_s (spark_config doc)
        ≤ graceful_restart_time_s (spark_config doc))
     ∧ 0 ≤ lower_threshold (step_detector_conf (spark_config doc))
         < upper_threshold (step_detector_conf (spark_config doc))
     ∧ 0 ≤ fast_window_size (step_detector_conf (spark_config doc))
         ≤ slow_window_size (step_detector_conf (spark_config doc)))
  ∧ 0 ≤ max_event_log (monitor_config doc)
  ∧ 0 ≤ linkflap_initial_backoff_ms (link_monitor_config doc)
      ≤ linkflap_max_backoff_ms (link_monitor_config doc)
  ∧ (enable_watchdog doc = Some true → watchdog_config doc ≠ None)
  ∧ (enable_bgp_peering doc = Some true →
     bgp_config doc ≠ None
     ∧ bgp_config (config_ c) = bgp_config doc
     ∧ bgp_translation_config (config_ c) ≠ None).
Proof.
  intros (s1 & s2 & s3 & _ & Hs1 & Efwd & _ & Ekv & Espark & Emon & Elm & E2
          & _ & Hs3 & Ebgp & Ewd)%Config_new_Returns_parts.
  apply populate_interface_regexes_Returns_iff in E2 as (_ & _ & _ & Hs2).
  assert (config_ s1 = doc) as Hc1 by by rewrite Hs1.
  assert (config_ s3 = doc) as Hc3 by by rewrite Hs3, Hs2.
  apply check_prefix_forwarding_Returns in Efwd. rewrite Hc1 in Efwd.
  destruct Efwd as (Hfwd1 & Hfwd2 & Hfwd3).
  pose proof (proj1 (check_kvstore_Returns _) Ekv) as Hkv.
  apply check_monitor_Returns in Emon.
  apply check_linkflap_backoff_Returns in Elm.
  unfold check_spark in Espark.
  rewrite !then_throw_if_Returns, throw_if_Returns in Espark.
  rewrite !orb_false_iff, !Z.leb_gt, !Z.ltb_ge in Espark.
  assert (0 < hello_time_s (spark_config doc) ≤ 2147483 →
          int32_mul 1000 (hello_time_s (spark_config doc))
          = 1000 * hello_time_s (spark_config doc)) as Hhello
    by (intros H; apply int32_mul_small; lia).
  assert (0 < keepalive_time_s (spark_config doc) ≤ 715827882 →
          int32_mul 3 (keepalive_time_s (spark_config doc))
          = 3 * keepalive_time_s (spark_config doc)) as Hkeepalive
    by (intros H; apply int32_mul_small; lia).
  apply populate_bgp_peering_Returns in Ebgp as [Hbgp Hc].
  unfold isBgpPeeringEnabled in Hbgp, Hc. rewrite Hc3 in Hbgp, Hc.
  pose proof (proj1 (check_watchdog_Returns _) Ewd) as Hwd.
  unfold isWatchdogEnabled in Hwd.
  assert (enable_watchdog (config_ c) = enable_watchdog doc
          ∧ watchdog_config (config_ c) = watchdog_config doc
          ∧ bgp_config (config_ c) = bgp_config doc) as (Hw1 & Hw2 & Hb).
  { rewrite Hc. destruct (_ && _); cbn; by rewrite Hc3. }
  rewrite Hw1, Hw2 in Hwd.
  split_and!; try done; try lia.
  - intros Hen. apply Hwd. by rewrite Hen.
  - intros Hen. rewrite Hen in Hbgp, Hc. cbn in Hbgp, Hc.
    split_and!; [by apply Hbgp|done|].
    rewrite Hc. destruct (bgp_translation_config doc) eqn:Htr; cbn.
    + by rewrite Hc3, Htr.
    + done.
Qed.

(** X10.  The area registry and the interface classifiers of a constructed
    object.  The declared area ids are pairwise different and every declared
    area has a pattern; the set of area ids holds the declared ids, or only
    the default id when none is declared, and is never empty; the area map
    has one entry per declared id, with no classifier for an empty pattern
    list and otherwise the case-insensitive set, anchored at both ends, of
    the list's patterns in their order; and each of the include, exclude and
    redistribute classifiers is none for an empty list and otherwise the
    case-sensitive set of its list. *)
Theorem Config_new_Returns_registry doc c :
  Config_new doc = Returns c →
  NoDup (area_id <$> areas doc)
  ∧ Forall area_compiles (areas doc)
  ∧ areaIds_ c = (if bool_decide (areas doc = []) then {[kDefaultArea]}
                  else list_to_set (area_id <$> areas doc))
  ∧ areaIds_ c ≠ ∅
  ∧ dom (areaConfigs_ c) = list_to_set (area_id <$> areas doc)
  ∧ (∀ a, a ∈ areas doc → areaConfigs_ c !! area_id a = Some (area_entry a))
  ∧ includeItfRegexes_ c
    = regex_set_of RE2_Options_default
        (include_interface_regexes (link_monitor_config doc))
  ∧ excludeItfRegexes_ c
    = regex_set_of RE2_Options_default
        (exclude_interface_regexes (link_monitor_config doc))
  ∧ redistributeItfRegexes_ c
    = regex_set_of RE2_Options_default
        (redistribute_interface_regexes (link_monitor_config doc)).
Proof.
  intros (s1 & s2 & s3 & E1 & _ & _ & _ & _ & _ & _ & _ & E2 & _ & Hs3
          & Ebgp & _)%Config_new_Returns_parts.
  apply populateAreaConfig_Returns_state in E1
    as (Hnd & Hall & Hids & Hdom & Hentries & _).
  apply populate_interface_regexes_Returns_iff in E2 as (_ & _ & _ & Hs2).
  apply populate_bgp_peering_Returns in Ebgp as [_ Hc].
  assert (areaIds_ c = areaIds_ s1 ∧ areaConfigs_ c = areaConfigs_ s1
          ∧ includeItfRegexes_ c = includeItfRegexes_ s2
          ∧ excludeItfRegexes_ c = excludeItfRegexes_ s2
          ∧ redistributeItfRegexes_ c = redistributeItfRegexes_ s2)
    as (-> & -> & -> & -> & ->).
  { rewrite Hc. destruct (isBgpPeeringEnabled s3 && _);
      rewrite Hs3; cbn; by rewrite Hs2. }
  split_and!; [done|done|done| |done|done|by rewrite Hs2..].
  rewrite Hids. case_bool_decide as Hnil.
  - apply non_empty_singleton_L.
  - destruct (areas doc) as [|a rest]; [done|]. cbn. set_solver.
Qed.

Lemma mask_idemp a n : mask (mask a n) n = mask a n.
Proof.
  destruct a; cbn; by rewrite <- Z.land_assoc, Z.land_diag.
Qed.

(** What [createNetwork] returns with masking on is masked. *)
Lemma createNetwork_masked s d a l :
  createNetwork s d true = Returns (a, l) → mask a l = a.
Proof.
  rewrite createNetwork_applyMask.
  destruct (createNetwork s d false) as [[a0 l0]|]; [|done]. cbn.
  intros [= <- <-]. apply mask_idemp.
Qed.

Lemma createNetwork_true_length_nonneg s a l :
  createNetwork s (-1) true = Returns (a, l) → 0 ≤ l.
Proof.
  rewrite createNetwork_applyMask.
  destruct (createNetwork s (-1) false) as [[a0 l0]|] eqn:E; [|done]. cbn.
  intros [= <- <-]. by eapply createNetwork_length_nonneg.
Qed.

(** The parameters [createPrefixAllocationParams] returns: the target length
    is the one given and lies above the declared length, which is not
    negative, and within the bit count of the seed's family; and the seed
    address has no bit set below the declared length. *)
Lemma createPrefixAllocationParams_Returns s t a l t' :
  createPrefixAllocationParams s t = Returns ((a, l), t') →
  s ≠ EmptyString ∧ t' = t ∧ 0 ≤ l < t ∧ t ≤ bitCount a ∧ mask a l = a.
Proof.
  intros H.
  destruct (decide (s = EmptyString ∨ t = 0)) as [Hunset|Hset].
  { by rewrite createPrefixAllocationParams_unfilled in H. }
  assert (s ≠ EmptyString ∧ t ≠ 0) as [Hs Ht] by (forget_parameters; tauto).
  destruct (createNetwork s (-1) true) as [[a0 l0]|e] eqn:Enet.
  - rewrite (createPrefixAllocationParams_parsed s t a0 l0) in H by done.
    destruct (_ || _) eqn:E; [done|]. injection H as <- <- <-.
    pose proof (createNetwork_true_length_nonneg _ _ _ Enet).
    pose proof (createNetwork_masked _ _ _ _ Enet).
    rewrite bitCount_isV4. split_and!; try done; revert E; Zbool.
  - by rewrite (createPrefixAllocationParams_unparsed s t e) in H.
Qed.

(** X11.  The parameters [createPrefixAllocationParams] returns keep the
    invariants of prefix allocation parameters: the seed string was not
    empty, the target length is the one given, it lies strictly above the
    declared length, which is not negative, and is at most 32 for a v4 seed
    and 128 for a v6 seed; and the seed address is a network address, with
    no bit set below the declared length. *)
Theorem createPrefixAllocationParams_Returns_invariants s t a l t' :
  createPrefixAllocationParams s t = Returns ((a, l), t') →
  s ≠ EmptyString ∧ t' = t ∧ 0 ≤ l < t
  ∧ t ≤ (if isV4 a then 32 else 128)
  ∧ mask a l = a.
Proof.
  intros (Hs & Ht & Hl & Hbits & Hmask)%createPrefixAllocationParams_Returns.
  rewrite bitCount_isV4 in Hbits. split_and!; try done; lia.
Qed.

(** X12.  The prefix allocation parameters of a constructed object.  They
    are set exactly when prefix allocation is enabled in the root-node mode.
    When set, they are what [createPrefixAllocationParams] gives for the
    seed and length of the sub-document, the target length lies strictly
    above the declared length and within the bit count of the seed's family,
    and a v4 seed comes with v4 enabled.  When prefix allocation is enabled
    and they are not set, the mode is leaf-node or static, the seed is unset
    or empty and the length is unset or not above zero. *)
Theorem Config_new_Returns_prefix_allocation doc c :
  Config_new doc = Returns c →
  match prefixAllocationParams_ c with
  | Some ((a, l), t) =>
      enable_prefix_allocation doc = Some true
      ∧ (∃ paConf,
           prefix_allocation_config doc = Some paConf
           ∧ prefix_allocation_mode paConf = DYNAMIC_ROOT_NODE
           ∧ createPrefixAllocationParams
               (default EmptyString (seed_prefix paConf))
               (to_uint8 (default 0 (allocate_prefix_len paConf)))
             = Returns ((a, l), t))
      ∧ 0 ≤ l < t ∧ t ≤ bitCount a
      ∧ (isV4 a = true → enable_v4 doc = Some true)
  | None =>
      enable_prefix_allocation doc = Some true →
      ∃ paConf,
        prefix_allocation_config doc = Some paConf
        ∧ (prefix_allocation_mode paConf = DYNAMIC_LEAF_NODE
           ∨ prefix_allocation_mode paConf = STATIC)
        ∧ default EmptyString (seed_prefix paConf) = EmptyString
        ∧ default 0 (allocate_prefix_len paConf) ≤ 0
  end.
Proof.
  intros (s1 & s2 & s3 & _ & Hs1 & _ & _ & _ & _ & _ & _ & E2 & E3 & _
          & Ebgp & _)%Config_new_Returns_parts.
  apply populate_interface_regexes_Returns_iff in E2 as (_ & _ & _ & Hs2).
  apply populate_bgp_peering_Returns in Ebgp as [_ Hc].
  assert (prefixAllocationParams_ c = prefixAllocationParams_ s3) as ->
    by (rewrite Hc; by destruct (_ && _)).
  assert (config_ s2 = doc) as Hc2 by by rewrite Hs2, Hs1.
  assert (prefixAllocationParams_ s2 = None) as Hp2 by by rewrite Hs2, Hs1.
  assert (∀ b, default false b = true ↔ b = Some true) as Hflag
    by (clear; by intros [[]|]).
  destruct (isPrefixAllocationEnabled s2) eqn:Hen.
  - pose proof Hen as Hen'. unfold isPrefixAllocationEnabled in Hen'.
    rewrite Hc2, Hflag in Hen'.
    destruct (prefix_allocation_config (config_ s2)) as [paConf|] eqn:Hpa.
    + apply (populate_prefix_allocation_Returns _ paConf) in E3 as [_ H];
        [|done..].
      rewrite Hc2 in Hpa.
      destruct (prefix_allocation_mode paConf) eqn:Hmode.
      * destruct H as (Hseed & Hlen & ->). rewrite Hp2. intros _.
        exists paConf. by split_and!; [|left|..].
      * destruct H as ([[a l] t] & Hparams & Hv4 & ->). cbn.
        pose proof (createPrefixAllocationParams_Returns _ _ _ _ _ Hparams)
          as (_ & Ht & Hl & Hbits & _).
        split_and!; [done|by exists paConf|lia|lia|lia|].
        intros Ha. specialize (Hv4 Ha). unfold isV4Enabled in Hv4.
        by rewrite Hc2, Hflag in Hv4.
      * destruct H as (Hseed & Hlen & ->). rewrite Hp2. intros _.
        exists paConf. by split_and!; [|right|..].
      * done.
    + pose proof (populate_prefix_allocation_no_config _ Hen Hpa) as Hno.
      by rewrite E3 in Hno.
  - rewrite populate_prefix_allocation_disabled in E3 by done.
    injection E3 as <-. rewrite Hp2. intros Hon.
    unfold isPrefixAllocationEnabled in Hen. rewrite Hc2 in Hen.
    apply Hflag in Hon. congruence.
Qed.

(* ===================================================================== *)
(** ** NetworkUtil.h: conversions there and back *)
(* ===================================================================== *)

Lemma be_value_app bs b : be_value (bs ++ [b]) = be_value bs * 256 + b.
Proof. unfold be_value. by rewrite foldl_app. Qed.

Lemma be_bytes_length n : ∀ w, length (be_bytes n w) = n.
Proof. forget_parameters.
  induction n as [|k IH]; intros w; cbn; [done|].
  rewrite length_app, IH. cbn. lia.
Qed.

Lemma be_bytes_range n : ∀ w, Forall (fun b => 0 ≤ b < 256) (be_bytes n w).
Proof. forget_parameters.
  induction n as [|k IH]; intros w; cbn; [constructor|].
  apply Forall_app. split; [apply IH|].
  constructor; [|constructor]. apply Z.mod_pos_bound. lia.
Qed.

Lemma be_value_be_bytes n : ∀ w,
  be_value (be_bytes n w) = w `mod` 256 ^ Z.of_nat n.
Proof. forget_parameters.
  induction n as [|k IH]; intros w.
  - cbn. by rewrite Z.mod_1_r.
  - cbn [be_bytes]. rewrite be_value_app, IH.
    rewrite Nat2Z.inj_succ, Z.pow_succ_r by lia.
    rewrite (Z.rem_mul_r w 256 (256 ^ Z.of_nat k)) by lia. lia.
Qed.

Lemma be_bytes_be_value bs :
  Forall (fun b => 0 ≤ b < 256) bs →
  be_bytes (length bs) (be_value bs) = bs.
Proof. forget_parameters.
  induction bs as [|b bs IH] using rev_ind; intros Hrange; [done|].
  apply Forall_app in Hrange as [Hbs Hb]. inversion Hb as [|?? Hb' _]; subst.
  rewrite length_app, Nat.add_1_r. cbn [be_bytes length].
  rewrite be_value_app.
  replace ((be_value bs * 256 + b) `div` 256) with (be_value bs)
    by (rewrite Z.div_add_l, Z.div_small by lia; lia).
  replace ((be_value bs * 256 + b) `mod` 256) with b
    by (rewrite Z.add_comm, Z.mod_add, Z.mod_small by lia; lia).
  by rewrite IH.
Qed.

Lemma be_value_range bs :
  Forall (fun b => 0 ≤ b < 256) bs →
  0 ≤ be_value bs < 256 ^ Z.of_nat (length bs).
Proof. forget_parameters.
  induction bs as [|b bs IH] using rev_ind; intros Hrange; [cbn; lia|].
  apply Forall_app in Hrange as [Hbs Hb]. inversion Hb as [|?? Hb' _]; subst.
  specialize (IH Hbs).
  rewrite be_value_app, length_app, Nat.add_1_r, Nat2Z.inj_succ,
    Z.pow_succ_r by lia.
  lia.
Qed.

Section NetworkUtilProperties.

Variable IPAddress_str : IPAddress → string.

(** X13.  A well-formed address converted to a [BinaryAddress] and back is
    the same address; the [BinaryAddress] holds 4 bytes for v4 and 16 for v6,
    each from 0 to 255, and no interface name. *)
Theorem toIPAddress_toBinaryAddress a :
  IPAddress_wf a →
  toIPAddress (toBinaryAddress (Some a)) = inr a
  ∧ length (addr (toBinaryAddress (Some a)))
    = (if isV4 a then 4%nat else 16%nat)
  ∧ Forall (fun b => 0 ≤ b < 256) (addr (toBinaryAddress (Some a)))
  ∧ ifName (toBinaryAddress (Some a)) = None.
Proof.
  intros Hwf. unfold toIPAddress, fromBinary.
  destruct a as [w|w]; cbn [toBinaryAddress toBinaryAddressImpl addr ifName
                            app isV4 IPAddress_wf] in *.
  - rewrite be_bytes_length. cbn [Nat.eqb].
    rewrite be_value_be_bytes, Z.mod_small by (cbn; lia).
    split_and!; [done..|apply be_bytes_range|done].
  - rewrite be_bytes_length. cbn [Nat.eqb].
    rewrite be_value_be_bytes, Z.mod_small by (cbn; lia).
    split_and!; [done..|apply be_bytes_range|done].
Qed.

(** X14.  [toIPAddress] throws for a [BinaryAddress] whose byte count is
    neither 4 nor 16, the empty one included, and otherwise returns an
    address of the family of that byte count.  When the bytes are from 0 to
    255 the address is well formed and converts back to the same bytes; the
    interface name of the [BinaryAddress] is not carried along. *)
Theorem toBinaryAddress_toIPAddress bin :
  (length (addr bin) ≠ 4%nat → length (addr bin) ≠ 16%nat →
   toIPAddress bin = inl (invalid_binary_address (addr bin)))
  ∧ (∀ a, toIPAddress bin = inr a →
       length (addr bin) = (if isV4 a then 4%nat else 16%nat)
       ∧ (Forall (fun b => 0 ≤ b < 256) (addr bin) →
          IPAddress_wf a
          ∧ toBinaryAddress (Some a)
            = {| addr := addr bin; ifName := None |})).
Proof.
  unfold toIPAddress, fromBinary. split.
  - intros H4 H16.
    by rewrite (proj2 (Nat.eqb_neq _ _) H4), (proj2 (Nat.eqb_neq _ _) H16).
  - intros a.
    destruct (length (addr bin) =? 4)%nat eqn:E4.
    + apply Nat.eqb_eq in E4. intros [= <-]. split; [done|].
      intros Hrange. split.
      * pose proof (be_value_range _ Hrange) as H. rewrite E4 in H.
        cbn. cbn in H. lia.
      * unfold toBinaryAddress, toBinaryAddressImpl.
        by rewrite <- E4, be_bytes_be_value.
    + destruct (length (addr bin) =? 16)%nat eqn:E16; [|done].
      apply Nat.eqb_eq in E16. intros [= <-]. split; [done|].
      intros Hrange. split.
      * pose proof (be_value_range _ Hrange) as H. rewrite E16 in H.
        cbn. cbn in H. lia.
      * unfold toBinaryAddress, toBinaryAddressImpl.
        by rewrite <- E16, be_bytes_be_value.
Qed.

(** X15.  A network converted to an [IpPrefix] and back: for a well-formed
    address whose text has no slash and reads back as the address, and a
    length within the family's bit count, [toIPNetwork] of the [toIpPrefix]
    of the network returns the length unchanged and, with masking (the
    default), the address masked to the length, without masking the address
    itself. *)
Theorem toIPNetwork_toIpPrefix a l applyMask :
  IPAddress_wf a →
  0 ≤ l ≤ bitCount a →
  split "/" (IPAddress_str a) = [IPAddress_str a] →
  IPAddress_tryFromString (IPAddress_str a) = Some a →
  toIPNetwork IPAddress_str (toIpPrefix (a, l)) applyMask
  = inr (if applyMask then mask a l else a, l).
Proof.
  intros Hwf Hl Hsplit Hparse. unfold toIPNetwork, toIpPrefix.
  cbn [prefixAddress prefixLength fst snd].
  destruct (toIPAddress_toBinaryAddress a Hwf) as (-> & _).
  unfold createNetwork.
  rewrite then_throw_if_false by (apply Z.ltb_ge; destruct a; cbn in Hl; lia).
  rewrite Hsplit. cbn [length Nat.eqb Nat.ltb Nat.leb orb].
  rewrite then_throw_if_false by done.
  cbn [lookup list_lookup default from_option id]. rewrite Hparse. cbn.
  replace (-1 <? l) with true by (symmetry; apply Z.ltb_lt; lia).
  cbn. replace (bitCount a <? l) with false
    by (symmetry; apply Z.ltb_ge; lia).
  done.
Qed.

(** X16.  The text of a prefix made from a network with a well-formed
    address is the text of the address, a slash and the length in decimal;
    the text of an empty [BinaryAddress] is the empty string. *)
Theorem toString_IpPrefix_toIpPrefix a l :
  IPAddress_wf a →
  toString_IpPrefix IPAddress_str (toIpPrefix (a, l))
  = inr (IPAddress_str a +:+ "/" +:+ pretty l)
  ∧ toString_BinaryAddress IPAddress_str (toBinaryAddress None)
    = inr EmptyString.
Proof.
  intros Hwf. split; [|done].
  unfold toString_IpPrefix, toString_BinaryAddress, toIpPrefix.
  cbn [prefixAddress prefixLength fst snd].
  destruct (toIPAddress_toBinaryAddress a Hwf) as (-> & Hlen & _).
  destruct (addr (toBinaryAddress (Some a))) as [|b bs]; [|done].
  by destruct (isV4 a).
Qed.

(** X17.  A prefix made from text holds the network address of the text:
    when [toIpPrefix] of a string returns, the string parses, as written, to
    an address and a length, and the prefix is the one of that address
    masked to the length, with that length. *)
Theorem toIpPrefix_text_masked prefix p :
  toIpPrefix_text prefix = inr p →
  ∃ a l,
    createNetwork prefix (-1) false = Returns (a, l)
    ∧ p = toIpPrefix (mask a l, l)
    ∧ prefixLength p = l.
Proof.
  unfold toIpPrefix_text. rewrite createNetwork_applyMask.
  destruct (createNetwork prefix (-1) false) as [[a l]|]; cbn; [|done].
  intros [= <-]. by exists a, l.
Qed.

End NetworkUtilProperties.

End ConfigCpp.

(* ===================================================================== *)
(** ** The properties on concrete inputs *)
(* ===================================================================== *)

(** C4, as stated, fails.  The seed "10.1.2.3/8" parses, as written, to the
    address 10.1.2.3 and the length 8, and 24 is a legal target; the pair
    returned holds the address 10.0.0.0: the bits below the declared length
    are cleared by [createNetwork], whose masking is on by default. *)
Lemma createPrefixAllocationParams_seed_not_as_written :
  createNetwork inet_syntax "10.1.2.3/8" (-1) false
    = Returns (IPAddressV4 0x0A010203, 8)
  ∧ 8 < 24 ≤ 32
  ∧ createPrefixAllocationParams inet_syntax "10.1.2.3/8" 24
    = Returns ((IPAddressV4 0x0A000000, 8), 24)
  ∧ ¬ (∀ s t a l,
         createNetwork inet_syntax s (-1) false = Returns (a, l) →
         l < t ≤ bitCount a →
         createPrefixAllocationParams inet_syntax s t = Returns ((a, l), t)).
Proof.
  split; [done|]. split; [lia|]. split; [done|].
  intros H.
  specialize (H "10.1.2.3/8" 24 (IPAddressV4 0x0A010203) 8 eq_refl).
  by specialize (H ltac:(cbn; lia)).
Qed.

Lemma createPrefixAllocationParams_returns_masked_network_witness :
  "10.1.2.3/8" ≠ EmptyString
  ∧ createNetwork inet_syntax "10.1.2.3/8" (-1) false
    = Returns (IPAddressV4 0x0A010203, 8)
  ∧ 8 < 24 ≤ bitCount (IPAddressV4 0x0A010203)
  ∧ createNetwork inet_syntax "10.1.2.3/8" (-1) true
    = Returns (mask (IPAddressV4 0x0A010203) 8, 8)
  ∧ createPrefixAllocationParams inet_syntax "10.1.2.3/8" 24
    = Returns ((mask (IPAddressV4 0x0A010203) 8, 8), 24).
Proof.
  assert ("10.1.2.3/8" ≠ EmptyString) as H1 by discriminate.
  assert (createNetwork inet_syntax "10.1.2.3/8" (-1) false
          = Returns (IPAddressV4 0x0A010203, 8)) as H2 by reflexivity.
  assert (8 < 24 ≤ bitCount (IPAddressV4 0x0A010203)) as H3 by (cbn; lia).
  split; [exact H1|]. split; [exact H2|]. split; [exact H3|].
  exact (createPrefixAllocationParams_returns_masked_network
           inet_syntax "10.1.2.3/8" 24 (IPAddressV4 0x0A010203) 8 H1 H2 H3).
Defined.

Lemma createPrefixAllocationParams_accepts_exactly_witness :
  inet_syntax "10.0.0.0" = Some (IPAddressV4 0x0A000000)
  ∧ createPrefixAllocationParams inet_syntax "10.0.0.0/8" 24
    = Returns ((IPAddressV4 0x0A000000, 8), 24)
  ∧ thrown (createPrefixAllocationParams inet_syntax "10.0.0.0/8" 8) = true
  ∧ thrown (createPrefixAllocationParams inet_syntax "10.0.0.0/8" 33) = true
  ∧ (returned (createPrefixAllocationParams inet_syntax "face:b00c::/32" 64)
     = true ↔ 32 < 64 ≤ 128)
  ∧ (returned (createPrefixAllocationParams inet_syntax "10.0.0.0/8" 129)
     = true ↔ 8 < 129 ≤ 32).
Proof.
  assert (inet_syntax "10.0.0.0" = Some (IPAddressV4 0x0A000000)) as H
    by reflexivity.
  destruct (createPrefixAllocationParams_accepts_exactly inet_syntax H)
    as (E24 & E8 & E33 & _ & _ & Hrange).
  split; [exact H|]. split; [exact E24|].
  split; [rewrite E8; reflexivity|]. split; [rewrite E33; reflexivity|].
  split.
  - assert ("face:b00c::/32" ≠ EmptyString) as Hs by discriminate.
    assert (64 ≠ 0) as Ht by discriminate.
    exact (proj2 (Hrange "face:b00c::/32" 64
                    (IPAddressV6 0xfaceb00c000000000000000000000000) 32
                    Hs Ht eq_refl) eq_refl).
  - assert ("10.0.0.0/8" ≠ EmptyString) as Hs by discriminate.
    assert (129 ≠ 0) as Ht by discriminate.
    exact (proj1 (Hrange "10.0.0.0/8" 129 (IPAddressV4 0x0A000000) 8
                    Hs Ht eq_refl) eq_refl).
Defined.

Lemma check_spark_timing_boundaries_witness :
  0 < 6666 ≤ 65535
  ∧ 0 ≤ lower_threshold sample_step_detector
      < upper_threshold sample_step_detector
  ∧ 0 ≤ fast_window_size sample_step_detector
      ≤ slow_window_size sample_step_detector
  ∧ 0 < 60000 ≤ int32_mul 1000 60
  ∧ check_spark
      {| neighbor_discovery_port := 6666; hello_time_s := 60;
         fastinit_hello_time_ms := 60000; keepalive_time_s := 10;
         hold_time_s := 10; graceful_restart_time_s := 30;
         step_detector_conf := sample_step_detector |} = Returns tt
  ∧ thrown (check_spark
      {| neighbor_discovery_port := 6666; hello_time_s := 60;
         fastinit_hello_time_ms := 60000; keepalive_time_s := 11;
         hold_time_s := 10; graceful_restart_time_s := 33;
         step_detector_conf := sample_step_detector |}) = true
  ∧ thrown (check_spark
      {| neighbor_discovery_port := 6666; hello_time_s := 60;
         fastinit_hello_time_ms := 60001; keepalive_time_s := 10;
         hold_time_s := 10; graceful_restart_time_s := 30;
         step_detector_conf := sample_step_detector |}) = true
  ∧ thrown (check_spark
      {| neighbor_discovery_port := 6666; hello_time_s := 60;
         fastinit_hello_time_ms := 60000; keepalive_time_s := 10;
         hold_time_s := 10; graceful_restart_time_s := 29;
         step_detector_conf := sample_step_detector |}) = true.
Proof.
  assert (0 < 6666 ≤ 65535) as H1 by lia.
  assert (0 ≤ lower_threshold sample_step_detector
          < upper_threshold sample_step_detector) as H2 by (cbn; lia).
  assert (0 ≤ fast_window_size sample_step_detector
          ≤ slow_window_size sample_step_detector) as H3 by (cbn; lia).
  assert (0 < 60000 ≤ int32_mul 1000 60) as H4
    by (change (int32_mul 1000 60) with 60000; lia).
  destruct (check_spark_timing_boundaries 6666 sample_step_detector H1 H2 H3)
    as (Hka & Hka' & _ & Hfi' & _ & Hgr' & _).
  split; [exact H1|]. split; [exact H2|]. split; [exact H3|].
  split; [exact H4|].
  split; [apply (Hka 60000 60 30); [lia|exact H4|lia]|].
  split; [rewrite (Hka' 60000 60 33) by (exact H4 || lia); reflexivity|].
  split; [rewrite (Hfi' 10 10 30); reflexivity|].
  rewrite (Hgr' 10 60000 60) by (exact H4 || lia); reflexivity.
Defined.

Lemma populateAreaConfig_duplicate_before_patterns_witness :
  let doc := sample_document sample_duplicate_areas (sample_spark 6666)
               (sample_link_monitor 60000 300000) None None in
  let a := {| area_id := "1"; interface_regexes := [];
              neighbor_regexes := [] |} in
  let b := {| area_id := "1"; interface_regexes := ["eth.*"];
              neighbor_regexes := [".*"] |} in
  areas doc !! 0%nat = Some a
  ∧ areas doc !! 2%nat = Some b
  ∧ 0%nat ≠ 2%nat
  ∧ area_id a = area_id b
  ∧ populateAreaConfig sample_RE2_parse_error sample_RE2_Set_Compile "0"
      (Config_init doc)
    = Throws (invalid_argument "Duplicate area config: area_id 1")
  ∧ ∃ pre d post,
      areas doc = pre ++ d :: post
      ∧ NoDup (area_id <$> pre)
      ∧ area_id d ∈ area_id <$> pre
      ∧ populateAreaConfig sample_RE2_parse_error sample_RE2_Set_Compile "0"
          (Config_init doc)
        = Throws (invalid_argument
                    ("Duplicate area config: area_id " +:+ area_id d))
      ∧ Config_new inet_syntax sample_RE2_parse_error sample_RE2_Set_Compile
          "0" doc
        = Throws (invalid_argument
                    ("Duplicate area config: area_id " +:+ area_id d))
      ∧ ((∀ i' j' a' b', i' ≠ j' →
            areas doc !! i' = Some a' → areas doc !! j' = Some b' →
            area_id a' = area_id b' → area_id a' = area_id a) →
         area_id d = area_id a).
Proof.
  intros doc a b.
  assert (areas doc !! 0%nat = Some a) as H1 by reflexivity.
  assert (areas doc !! 2%nat = Some b) as H2 by reflexivity.
  assert (0%nat ≠ 2%nat) as H3 by discriminate.
  assert (area_id a = area_id b) as H4 by reflexivity.
  split; [exact H1|]. split; [exact H2|]. split; [exact H3|].
  split; [exact H4|]. split; [reflexivity|].
  exact (populateAreaConfig_duplicate_before_patterns inet_syntax
           sample_RE2_parse_error sample_RE2_Set_Compile "0"
           doc 0%nat 2%nat a b H1 H2 H3 H4).
Defined.

(** C7, as stated, fails.  In the areas with the ids 1, 2, 2, 1 the first
    and the last area share the id 1, and the error names the id 2, whose
    second occurrence the loop reaches first. *)
Lemma populateAreaConfig_duplicate_names_first_repeat :
  area_id <$> sample_nested_duplicate_areas = ["1"; "2"; "2"; "1"]
  ∧ populateAreaConfig sample_RE2_parse_error sample_RE2_Set_Compile "0"
      (Config_init
         (sample_document sample_nested_duplicate_areas (sample_spark 6666)
            (sample_link_monitor 60000 300000) None None))
    = Throws (invalid_argument "Duplicate area config: area_id 2")
  ∧ ¬ (∀ doc i j a b,
         areas doc !! i = Some a → areas doc !! j = Some b →
         i ≠ j → area_id a = area_id b →
         populateAreaConfig sample_RE2_parse_error sample_RE2_Set_Compile "0"
           (Config_init doc)
         = Throws (invalid_argument
                     ("Duplicate area config: area_id " +:+ area_id a))).
Proof.
  split; [reflexivity|]. split; [reflexivity|].
  intros Hnames.
  specialize (Hnames
    (sample_document sample_nested_duplicate_areas (sample_spark 6666)
       (sample_link_monitor 60000 300000) None None)
    0%nat 3%nat _ _ eq_refl eq_refl ltac:(discriminate) eq_refl).
  discriminate Hnames.
Qed.

Lemma populate_bgp_peering_translation_default_witness :
  let absent := sample_peering_document None None in
  let present := sample_peering_document (Some [("peers", "2")]) None in
  isBgpPeeringEnabled (Config_init absent) = true
  ∧ bgp_config absent = None
  ∧ enable_bgp_peering present = Some true
  ∧ bgp_config present = Some [("peers", "2")]
  ∧ bgp_translation_config present = None
  ∧ populate_bgp_peering (Config_init absent)
    = Throws (invalid_argument
                "enable_bgp_peering = true, but bgp_config is empty")
  ∧ thrown (Config_new inet_syntax sample_RE2_parse_error
              sample_RE2_Set_Compile "0" absent) = true
  ∧ populate_bgp_peering (Config_init present)
    = Returns (map_config
                 (with_bgp_translation_config
                    (Some BgpRouteTranslationConfig_default))
                 (Config_init present))
  ∧ (∃ self',
       populate_bgp_peering (Config_init present) = Returns self'
       ∧ bgp_translation_config (config_ self')
         = Some BgpRouteTranslationConfig_default
       ∧ bgp_config (config_ self') = Some [("peers", "2")]
       ∧ isBgpPeeringEnabled self' = true)
  ∧ (∃ c,
       Config_new inet_syntax sample_RE2_parse_error sample_RE2_Set_Compile
         "0" present = Returns c
       ∧ config_ c = with_bgp_translation_config
                       (Some BgpRouteTranslationConfig_default) present
       ∧ bgp_translation_config (config_ c)
         = Some BgpRouteTranslationConfig_default
       ∧ bgp_config (config_ c) = Some [("peers", "2")]
       ∧ enable_bgp_peering (config_ c) = Some true).
Proof.
  intros absent present.
  destruct (populate_bgp_peering_translation_default inet_syntax
              sample_RE2_parse_error sample_RE2_Set_Compile "0")
    as (Habsent & Hthrown & Hdefault & Hreads & Hstored & Hfield).
  assert (Config_new inet_syntax sample_RE2_parse_error
            sample_RE2_Set_Compile "0" present
          = Returns (with_areaIds {["0"]}
                       (Config_init
                          (with_bgp_translation_config
                             (Some BgpRouteTranslationConfig_default)
                             present)))) as Hnew by reflexivity.
  split; [reflexivity|]. split; [reflexivity|]. split; [reflexivity|].
  split; [reflexivity|]. split; [reflexivity|].
  split; [exact (Habsent (Config_init absent) eq_refl eq_refl)|].
  split; [exact (Hthrown absent eq_refl eq_refl)|].
  split; [exact (Hdefault (Config_init present) [("peers", "2")]
                   eq_refl eq_refl eq_refl)|].
  split; [exact (Hreads (Config_init present) [("peers", "2")]
                   eq_refl eq_refl eq_refl)|].
  eexists. split; [exact Hnew|].
  split; [exact (Hstored present [("peers", "2")] _
                   eq_refl eq_refl eq_refl Hnew)|].
  exact (Hfield present [("peers", "2")] _ eq_refl eq_refl eq_refl Hnew).
Defined.


(* ===================================================================== *)
(** ** Further properties on concrete inputs *)
(* ===================================================================== *)

Lemma area_without_pattern_rejected_witness :
  let doc := sample_document sample_duplicate_areas (sample_spark 6666)
               (sample_link_monitor 60000 300000) None None in
  let area := {| area_id := "1"; interface_regexes := [];
                 neighbor_regexes := [] |} in
  area ∈ areas doc
  ∧ neighbor_regexes area = [] ∧ interface_regexes area = []
  ∧ thrown (populateAreaConfig sample_RE2_parse_error sample_RE2_Set_Compile
              "0" (Config_init doc)) = true
  ∧ thrown (Config_new inet_syntax sample_RE2_parse_error
              sample_RE2_Set_Compile "0" doc) = true.
Proof.
  intros doc area.
  assert (area ∈ areas doc) as H1 by (apply elem_of_cons; by left).
  assert (neighbor_regexes area = []) as H2 by reflexivity.
  assert (interface_regexes area = []) as H3 by reflexivity.
  destruct (area_without_pattern_rejected inet_syntax sample_RE2_parse_error
              sample_RE2_Set_Compile "0" doc area H1 H2 H3) as (_ & Hp & Hn).
  split; [exact H1|]. split; [exact H2|]. split; [exact H3|].
  split; [exact Hp|exact Hn].
Defined.

Lemma addAreaRegex_first_malformed_pattern_witness :
  let self := Config_init (sample_document [] (sample_spark 6666)
                             (sample_link_monitor 60000 300000) None None) in
  Forall (fun pattern =>
            sample_RE2_parse_error area_regex_options pattern = None)
    ["eth.*"]
  ∧ sample_RE2_parse_error area_regex_options "(" = Some "missing ): ("
  ∧ regexes_compile sample_RE2_parse_error sample_RE2_Set_Compile
      area_regex_options [".*"]
  ∧ addAreaRegex sample_RE2_parse_error sample_RE2_Set_Compile self "7"
      (["eth.*"] ++ "(" :: ["po.*"]) [".*"]
    = Throws (invalid_argument
                "Failed to add neighbor regex: ( for area: 7. Error: missing ): (")
  ∧ addAreaRegex sample_RE2_parse_error sample_RE2_Set_Compile self "7"
      [".*"] (["eth.*"] ++ "(" :: ["po.*"])
    = Throws (invalid_argument
                "Failed to add interface regex: ( for area: 7. Error: missing ): (").
Proof.
  intros self.
  assert (Forall (fun pattern =>
                    sample_RE2_parse_error area_regex_options pattern = None)
            ["eth.*"]) as H1 by (constructor; [reflexivity|constructor]).
  assert (sample_RE2_parse_error area_regex_options "("
          = Some "missing ): (") as H2 by reflexivity.
  assert (regexes_compile sample_RE2_parse_error sample_RE2_Set_Compile
            area_regex_options [".*"]) as H3
    by (split; [constructor; [reflexivity|constructor]|reflexivity]).
  destruct (addAreaRegex_first_malformed_pattern sample_RE2_parse_error
              sample_RE2_Set_Compile self "7" ["eth.*"] "(" ["po.*"]
              "missing ): (" [".*"] H1 H2) as [Hn Hi].
  split; [exact H1|]. split; [exact H2|]. split; [exact H3|].
  split; [exact Hn|exact (Hi H3)].
Defined.

Lemma populate_prefix_allocation_root_node_witness :
  let doc := sample_document [] (sample_spark 6666)
               (sample_link_monitor 60000 300000) (Some true)
               (Some sample_root_allocation) in
  let self := with_areaIds {["0"]} (Config_init doc) in
  let self' :=
    {| config_ := doc; areaIds_ := {["0"]}; areaConfigs_ := ∅;
       includeItfRegexes_ := None; excludeItfRegexes_ := None;
       redistributeItfRegexes_ := None;
       prefixAllocationParams_ := Some ((IPAddressV4 0x0A000000, 8), 24) |} in
  isPrefixAllocationEnabled self = true
  ∧ (size (areaIds_ self) ≤ 1)%nat
  ∧ prefix_allocation_config (config_ self) = Some sample_root_allocation
  ∧ prefix_allocation_mode sample_root_allocation = DYNAMIC_ROOT_NODE
  ∧ prefixAllocationParams_ self = None
  ∧ populate_prefix_allocation inet_syntax self = Returns self'
  ∧ prefixAllocationParams_ self' = Some ((IPAddressV4 0x0A000000, 8), 24).
Proof.
  intros doc self self'.
  assert (isPrefixAllocationEnabled self = true) as H1 by reflexivity.
  assert (size (areaIds_ self) ≤ 1)%nat as H2
    by (cbn; rewrite size_singleton; apply le_n).
  assert (prefix_allocation_config (config_ self)
          = Some sample_root_allocation) as H3 by reflexivity.
  assert (prefix_allocation_mode sample_root_allocation = DYNAMIC_ROOT_NODE)
    as H4 by reflexivity.
  destruct (populate_prefix_allocation_root_node inet_syntax self
              sample_root_allocation H1 H2 H3 H4) as (Hreturns & _ & _).
  split; [exact H1|]. split; [exact H2|]. split; [exact H3|].
  split; [exact H4|]. split; [reflexivity|]. split; [|reflexivity].
  apply (proj2 (Hreturns self')).
  exists ((IPAddressV4 0x0A000000, 8), 24).
  split; [reflexivity|]. split; [intros _; reflexivity|].
  split; [reflexivity|]. split; [reflexivity|]. split; [reflexivity|].
  split; [reflexivity|]. split; [reflexivity|]. split; reflexivity.
Defined.

Lemma single_area_features_reject_two_areas_witness :
  let doc := sample_document sample_areas (sample_spark 6666)
               (sample_link_monitor 60000 300000) (Some true)
               (Some sample_root_allocation) in
  let a := {| area_id := "1"; interface_regexes := ["eth.*"];
              neighbor_regexes := [] |} in
  let b := {| area_id := "2"; interface_regexes := [];
              neighbor_regexes := ["rsw.*"; "fsw.*"] |} in
  a ∈ areas doc ∧ b ∈ areas doc ∧ area_id a ≠ area_id b
  ∧ (enable_ordered_fib_programming doc = Some true
     ∨ enable_prefix_allocation doc = Some true)
  ∧ thrown (Config_new inet_syntax sample_RE2_parse_error
              sample_RE2_Set_Compile "0" doc) = true.
Proof.
  intros doc a b.
  assert (a ∈ areas doc) as H1 by (apply elem_of_cons; by left).
  assert (b ∈ areas doc) as H2
    by (apply elem_of_cons; right; apply elem_of_cons; by left).
  assert (area_id a ≠ area_id b) as H3 by discriminate.
  assert (enable_ordered_fib_programming doc = Some true
          ∨ enable_prefix_allocation doc = Some true) as H4
    by (right; reflexivity).
  split; [exact H1|]. split; [exact H2|]. split; [exact H3|].
  split; [exact H4|].
  exact (single_area_features_reject_two_areas inet_syntax
           sample_RE2_parse_error sample_RE2_Set_Compile "0" doc a b
           H1 H2 H3 H4).
Defined.

Lemma Config_new_idempotent_witness :
  let doc := sample_peering_document (Some [("peers", "2")]) None in
  let c := with_areaIds {["0"]}
             (Config_init
                (with_bgp_translation_config
                   (Some BgpRouteTranslationConfig_default) doc)) in
  Config_new inet_syntax sample_RE2_parse_error sample_RE2_Set_Compile "0" doc
    = Returns c
  ∧ config_ c ≠ doc
  ∧ Config_new inet_syntax sample_RE2_parse_error sample_RE2_Set_Compile "0"
      (config_ c) = Returns c.
Proof.
  intros doc c.
  assert (Config_new inet_syntax sample_RE2_parse_error
            sample_RE2_Set_Compile "0" doc = Returns c) as H by reflexivity.
  destruct (Config_new_idempotent inet_syntax sample_RE2_parse_error
              sample_RE2_Set_Compile "0" doc c H) as [_ Hagain].
  split; [exact H|]. split; [discriminate|exact Hagain].
Defined.

Lemma Config_new_Returns_validated_witness :
  let doc := sample_document [] (sample_spark 6666)
               (sample_link_monitor 60000 300000) None None in
  let c := with_areaIds {["0"]} (Config_init doc) in
  Config_new inet_syntax sample_RE2_parse_error sample_RE2_Set_Compile "0" doc
    = Returns c
  ∧ 1 ≤ neighbor_discovery_port (spark_config doc) ≤ 65535
  ∧ 0 ≤ linkflap_initial_backoff_ms (link_monitor_config doc)
      ≤ linkflap_max_backoff_ms (link_monitor_config doc).
Proof.
  intros doc c.
  assert (Config_new inet_syntax sample_RE2_parse_error
            sample_RE2_Set_Compile "0" doc = Returns c) as H by reflexivity.
  destruct (Config_new_Returns_validated inet_syntax sample_RE2_parse_error
              sample_RE2_Set_Compile "0" doc c H)
    as (_ & _ & (Hport & _) & _ & Hbackoff & _).
  split; [exact H|]. split; [exact Hport|exact Hbackoff].
Defined.

Lemma Config_new_Returns_registry_witness :
  let doc := sample_document sample_areas (sample_spark 6666)
               (sample_link_monitor 60000 300000) None None in
  match Config_new inet_syntax sample_RE2_parse_error sample_RE2_Set_Compile
          "0" doc with
  | Returns c =>
      areaIds_ c = list_to_set (area_id <$> areas doc)
      ∧ dom (areaConfigs_ c) = list_to_set (area_id <$> areas doc)
      ∧ includeItfRegexes_ c = None
  | Throws _ => False
  end.
Proof.
  intros doc.
  destruct (Config_new inet_syntax sample_RE2_parse_error
              sample_RE2_Set_Compile "0" doc) as [c|e] eqn:E.
  - destruct (Config_new_Returns_registry inet_syntax sample_RE2_parse_error
                sample_RE2_Set_Compile "0" doc c E)
      as (_ & _ & Hids & _ & Hdom & _ & Hinc & _).
    split; [exact Hids|]. split; [exact Hdom|exact Hinc].
  - vm_compute in E. discriminate E.
Defined.

Lemma createPrefixAllocationParams_Returns_invariants_witness :
  createPrefixAllocationParams inet_syntax "10.1.2.3/8" 24
    = Returns ((IPAddressV4 0x0A000000, 8), 24)
  ∧ "10.1.2.3/8" ≠ EmptyString ∧ 24 = 24 ∧ 0 ≤ 8 < 24
  ∧ 24 ≤ (if isV4 (IPAddressV4 0x0A000000) then 32 else 128)
  ∧ mask (IPAddressV4 0x0A000000) 8 = IPAddressV4 0x0A000000.
Proof.
  assert (createPrefixAllocationParams inet_syntax "10.1.2.3/8" 24
          = Returns ((IPAddressV4 0x0A000000, 8), 24)) as H by reflexivity.
  split; [exact H|].
  exact (createPrefixAllocationParams_Returns_invariants inet_syntax
           "10.1.2.3/8" 24 (IPAddressV4 0x0A000000) 8 24 H).
Defined.

Lemma Config_new_Returns_prefix_allocation_witness :
  let doc := sample_document [] (sample_spark 6666)
               (sample_link_monitor 60000 300000) (Some true)
               (Some sample_root_allocation) in
  let c := with_prefixAllocationParams
             (Some ((IPAddressV4 0x0A000000, 8), 24))
             (with_areaIds {["0"]} (Config_init doc)) in
  Config_new inet_syntax sample_RE2_parse_error sample_RE2_Set_Compile "0" doc
    = Returns c
  ∧ enable_prefix_allocation doc = Some true
  ∧ 0 ≤ 8 < 24 ∧ 24 ≤ bitCount (IPAddressV4 0x0A000000)
  ∧ (isV4 (IPAddressV4 0x0A000000) = true → enable_v4 doc = Some true).
Proof.
  intros doc c.
  assert (Config_new inet_syntax sample_RE2_parse_error
            sample_RE2_Set_Compile "0" doc = Returns c) as H by reflexivity.
  pose proof (Config_new_Returns_prefix_allocation inet_syntax
                sample_RE2_parse_error sample_RE2_Set_Compile "0" doc c H)
    as Hparams.
  cbn [prefixAllocationParams_ c with_prefixAllocationParams] in Hparams.
  destruct Hparams as (Hen & _ & Hl & Hbits & Hv4).
  split; [exact H|]. split; [exact Hen|]. split; [exact Hl|].
  split; [exact Hbits|exact Hv4].
Defined.

Lemma toIPAddress_toBinaryAddress_witness :
  IPAddress_wf (IPAddressV4 0x0A010203)
  ∧ addr (toBinaryAddress (Some (IPAddressV4 0x0A010203))) = [10; 1; 2; 3]
  ∧ toIPAddress (toBinaryAddress (Some (IPAddressV4 0x0A010203)))
    = inr (IPAddressV4 0x0A010203).
Proof.
  assert (IPAddress_wf (IPAddressV4 0x0A010203)) as H by (cbn; lia).
  split; [exact H|]. split; [reflexivity|].
  exact (proj1 (toIPAddress_toBinaryAddress (IPAddressV4 0x0A010203) H)).
Defined.

Lemma toIPNetwork_toIpPrefix_witness :
  let a := IPAddressV4 0x0A010203 in
  IPAddress_wf a
  ∧ 0 ≤ 8 ≤ bitCount a
  ∧ split "/" (inet_str a) = [inet_str a]
  ∧ inet_syntax (inet_str a) = Some a
  ∧ toIPNetwork inet_syntax inet_str (toIpPrefix (a, 8)) true
    = inr (IPAddressV4 0x0A000000, 8)
  ∧ toIPNetwork inet_syntax inet_str (toIpPrefix (a, 8)) false = inr (a, 8).
Proof.
  intros a.
  assert (IPAddress_wf a) as H1 by (cbn; lia).
  assert (0 ≤ 8 ≤ bitCount a) as H2 by (cbn; lia).
  assert (split "/" (inet_str a) = [inet_str a]) as H3 by reflexivity.
  assert (inet_syntax (inet_str a) = Some a) as H4 by reflexivity.
  split; [exact H1|]. split; [exact H2|]. split; [exact H3|].
  split; [exact H4|]. split.
  - exact (toIPNetwork_toIpPrefix inet_syntax inet_str a 8 true H1 H2 H3 H4).
  - exact (toIPNetwork_toIpPrefix inet_syntax inet_str a 8 false H1 H2 H3 H4).
Defined.

Lemma toString_IpPrefix_toIpPrefix_witness :
  IPAddress_wf (IPAddressV4 0x0A010203)
  ∧ toString_IpPrefix inet_str (toIpPrefix (IPAddressV4 0x0A010203, 8))
    = inr "10.1.2.3/8".
Proof.
  assert (IPAddress_wf (IPAddressV4 0x0A010203)) as H by (cbn; lia).
  split; [exact H|].
  exact (proj1 (toString_IpPrefix_toIpPrefix inet_str
                  (IPAddressV4 0x0A010203) 8 H)).
Defined.

Lemma toIpPrefix_text_masked_witness :
  toIpPrefix_text inet_syntax "10.1.2.3/8"
    = inr (toIpPrefix (IPAddressV4 0x0A000000, 8))
  ∧ ∃ a l,
      createNetwork inet_syntax "10.1.2.3/8" (-1) false = Returns (a, l)
      ∧ toIpPrefix (IPAddressV4 0x0A000000, 8) = toIpPrefix (mask a l, l)
      ∧ prefixLength (toIpPrefix (IPAddressV4 0x0A000000, 8)) = l.
Proof.
  assert (toIpPrefix_text inet_syntax "10.1.2.3/8"
          = inr (toIpPrefix (IPAddressV4 0x0A000000, 8))) as H by reflexivity.
  split; [exact H|].
  exact (toIpPrefix_text_masked inet_syntax "10.1.2.3/8" _ H).
Defined.
